(** * MIRTracks: the wavelet BPM detector of [bpm_detect_1.py]

    A shallow embedding of [peak_detect], [bpm_detector], [detect_file_bpm]
    and [detect_segment_bpm], with the numpy / scipy / pywt primitives they
    call, followed by the properties of the tempo pipeline.  The batch
    drivers of the same file, the silence and activity analysis of
    [analyze_audio_activity.py] and the link dictionary of
    [get_multitrack_links.py] follow, with theirs.

    Numbers.  Python floats and numpy float64 arrays are modelled by exact
    rationals ([Q]) and lists of rationals: rounding error is abstracted
    away, every other operation is kept as the source performs it.  Sums
    are kept in lowest terms ([Qred]) so that the model evaluates on
    concrete windows.  Integers (sample counts, indices, the sample rate)
    are [Z].  A computation that would leave the rationals (a division by a
    zero lag, the mean of an empty array) ends with [NonFinite].

    Control.  A Python exception that the modelled functions do not catch
    is the [Raise] outcome of the [result] monad below; the
    [(None, None)] pair returned by [no_audio_data] and the [None] returned
    by the two detectors are [Ret None]. *)

From Stdlib Require Import Ascii String.
From Stdlib Require Import List ZArith QArith Qround Qabs Qreduction.
From Stdlib Require Import Lia ZifyNat Lqa Bool Permutation Sorted.
Import ListNotations.

Local Open Scope Z_scope.
Local Open Scope Q_scope.

(** ** Outcomes *)

Inductive pyerr : Set :=
| ValueError          (* numpy / scipy / pywt shape and argument errors *)
| ZeroDivisionError   (* Python scalar division by zero *)
| NonFinite.          (* numpy went on with inf or nan: outside [Q] *)

Inductive result (A : Type) : Type :=
| Ret (a : A)
| Raise (e : pyerr).

Arguments Ret {A} a.
Arguments Raise {A} e.

Definition bind {A B : Type} (c : result A) (k : A -> result B) : result B :=
  match c with
  | Ret a => k a
  | Raise e => Raise e
  end.

Notation "x <- c ;; k" := (bind c (fun x => k))
  (at level 61, c at next level, right associativity).
Notation "' p <- c ;; k" := (bind c (fun x => let 'p := x in k))
  (at level 61, p pattern, c at next level, right associativity).

(** ** Python and numpy primitives *)

Module Py.

(** [int(x)] on a float: truncation toward zero. *)
Definition int (x : Q) : Z := Z.quot (Qnum x) (Zpos (Qden x)).

(** [math.floor(x)]. *)
Definition floor (x : Q) : Z := Qfloor x.

(** [len(l)] as an integer. *)
Definition len {A : Type} (l : list A) : Z := Z.of_nat (length l).

(** Index normalisation of a slice bound: a negative bound counts from
    the end, and every bound is clamped to [0, len]. *)
Definition clamp (n i : Z) : Z :=
  if (i <? 0)%Z then Z.max 0 (i + n) else Z.min i n.

(** [l[start:stop]] with unit step. *)
Definition slice {A : Type} (l : list A) (start stop : Z) : list A :=
  let n := len l in
  let a := clamp n start in
  let b := clamp n stop in
  firstn (Z.to_nat (b - a)) (skipn (Z.to_nat a) l).

(** [l[start:]]. *)
Definition slice_from {A : Type} (l : list A) (start : Z) : list A :=
  skipn (Z.to_nat (clamp (len l) start)) l.

(** [l[::step]] for a positive step: the elements at 0, step, 2 step, ... *)
Definition stride (step : nat) (l : list Q) : list Q :=
  map (fun i => nth (i * step) l 0) (seq 0 ((length l + step - 1) / step)).

(** [range(0, n)]. *)
Definition range (n : Z) : list Z := map Z.of_nat (seq 0 (Z.to_nat n)).

(** [round(x, 1)]: to the nearest tenth, halves to the even tenth. *)
Definition round_half_even (x : Q) : Z :=
  let f := Qfloor x in
  let r := x - inject_Z f in
  match Qcompare r (1 # 2) with
  | Lt => f
  | Gt => (f + 1)%Z
  | Eq => if Z.even f then f else (f + 1)%Z
  end.

Definition round1 (x : Q) : Q := inject_Z (round_half_even (x * 10)) / 10.

End Py.

Module Np.

(** Sum of an array, kept in lowest terms. *)
Definition sum (l : list Q) : Q :=
  fold_right (fun x acc => Qred (x + acc)) 0 l.

(** [numpy.zeros(n)]. *)
Definition zeros (n : Z) : list Q := repeat 0 (Z.to_nat n).

(** [numpy.mean(a)]; the mean of an empty array is nan. *)
Definition mean (l : list Q) : result Q :=
  match l with
  | [] => Raise NonFinite
  | _ => Ret (Qred (sum l / inject_Z (Py.len l)))
  end.

(** [a - c] for a scalar [c]. *)
Definition sub_scalar (l : list Q) (c : Q) : list Q :=
  map (fun x => Qred (x - c)) l.

(** [abs(a)]. *)
Definition abs (l : list Q) : list Q := map Qabs l.

(** [a + b] on one-dimensional arrays, with numpy's broadcasting: equal
    lengths add elementwise, a length-one operand is stretched, any other
    pair of shapes raises ValueError. *)
Fixpoint zip_add (a b : list Q) : list Q :=
  match a, b with
  | x :: a', y :: b' => Qred (x + y) :: zip_add a' b'
  | _, _ => []
  end.

Definition add (a b : list Q) : result (list Q) :=
  if Nat.eqb (length a) (length b) then Ret (zip_add a b)
  else match a, b with
       | [x], _ => Ret (map (fun y => Qred (x + y)) b)
       | _, [y] => Ret (map (fun x => Qred (x + y)) a)
       | _, _ => Raise ValueError
       end.

(** [numpy.amax(a)]; an empty array has no maximum. *)
Definition amax (l : list Q) : result Q :=
  match l with
  | [] => Raise ValueError
  | x :: t => Ret (fold_left (fun m y => if Qle_bool m y then y else m) t x)
  end.

(** [numpy.where(a == v)[0]]: the indices, in increasing order. *)
Fixpoint where_eq_from (i : nat) (l : list Q) (v : Q) : list nat :=
  match l with
  | [] => []
  | x :: t =>
      if Qeq_bool x v then i :: where_eq_from (S i) t v
      else where_eq_from (S i) t v
  end.

Definition where_eq (l : list Q) (v : Q) : list nat := where_eq_from 0 l v.

(** [numpy.correlate(a, v, "full")]: entry [k] is the sum over [n] of
    [a[n + k - (len v - 1)] * v[n]], for [k] in [0, len a + len v - 1). *)
Definition correlate_at (a v : list Q) (k : nat) : Q :=
  sum (map (fun n =>
              let i := (Z.of_nat n + Z.of_nat k - (Py.len v - 1))%Z in
              if ((0 <=? i) && (i <? Py.len a))%Z
              then nth (Z.to_nat i) a 0 * nth n v 0 else 0)
           (seq 0 (length v))).

Definition correlate (a v : list Q) : result (list Q) :=
  match a, v with
  | [], _ | _, [] => Raise ValueError
  | _, _ => Ret (map (correlate_at a v) (seq 0 (length a + length v - 1)))
  end.

(** Sorting for the median. *)
Fixpoint insert (x : Q) (l : list Q) : list Q :=
  match l with
  | [] => [x]
  | y :: t => if Qle_bool x y then x :: l else y :: insert x t
  end.

Definition sort (l : list Q) : list Q := fold_right insert [] l.

(** Median of a flat non-empty array: the middle element of the sorted
    array, or the mean of the two middle ones. *)
Definition median_flat (l : list Q) : Q :=
  let s := sort l in
  let n := length s in
  if Nat.even n
  then (nth (n / 2 - 1) s 0 + nth (n / 2) s 0) / 2
  else nth (n / 2) s 0.

(** [numpy.median(rows)] on a Python list of one-dimensional arrays: the
    rows are stacked into a two-dimensional array, which needs rows of one
    common length (ValueError otherwise), and the median is taken over
    all its entries. *)
Definition same_length (rows : list (list Q)) : bool :=
  match rows with
  | [] => true
  | r :: rs => forallb (fun r' => Nat.eqb (length r') (length r)) rs
  end.

Definition median (rows : list (list Q)) : result Q :=
  if same_length rows then
    match concat rows with
    | [] => Raise NonFinite
    | flat => Ret (median_flat flat)
    end
  else Raise ValueError.

End Np.

(** [scipy.signal.lfilter(b, a, x)] with zero initial state: the direct
    form [a0 y[n] = sum_k b[k] x[n-k] - sum_(k>=1) a[k] y[n-k]].  The
    histories hold the most recent value first. *)
Module Scipy.

Fixpoint dot (cs hist : list Q) : Q :=
  match cs, hist with
  | c :: cs', h :: hist' => Qred (c * h + dot cs' hist')
  | _, _ => 0
  end.

Fixpoint lfilter_run (b a_tail : list Q) (a0 : Q)
         (xs xhist yhist : list Q) : list Q :=
  match xs with
  | [] => []
  | x :: xs' =>
      let xh := x :: xhist in
      let y := Qred ((dot b xh - dot a_tail yhist) / a0) in
      y :: lfilter_run b a_tail a0 xs' xh (y :: yhist)
  end.

Definition lfilter (b a x : list Q) : result (list Q) :=
  match a with
  | [] => Raise ValueError
  | a0 :: a_tail =>
      if Qeq_bool a0 0 then Raise ValueError
      else Ret (lfilter_run b a_tail a0 x [] [])
  end.

End Scipy.

(** ** pywt: the single-level discrete wavelet transform *)

Module Pywt.

Record wavelet : Set := { dec_lo : list Q; dec_hi : list Q }.

(** The decomposition filters of ["db4"], as PyWavelets tabulates them. *)
Definition db4 : wavelet :=
  {| dec_lo := [ -0.010597401784997278; 0.032883011666982945;
                 0.030841381835986965; -0.18703481171888114;
                 -0.02798376941698385; 0.6308807679295904;
                 0.7148465705525415; 0.23037781330885523 ];
     dec_hi := [ -0.23037781330885523; 0.7148465705525415;
                 -0.6308807679295904; -0.02798376941698385;
                 0.18703481171888114; 0.030841381835986965;
                 -0.032883011666982945; -0.010597401784997278 ] |}.

(** The default signal extension, ["symmetric"]: the signal mirrored at
    both ends ([... x1 x0 | x0 x1 ... | xn-1 xn-2 ...]), as often as the
    filter reaches. *)
Definition reflect (n : Z) (k : Z) : Z :=
  let m := (k mod (2 * n))%Z in
  if (m <? n)%Z then m else (2 * n - 1 - m)%Z.

Definition ext (x : list Q) (k : Z) : Q :=
  nth (Z.to_nat (reflect (Py.len x) k)) x 0.

(** One output coefficient: the filter against the extended signal at the
    odd position [2 i + 1]. *)
Definition conv_at (f x : list Q) (i : nat) : Q :=
  Np.sum (map (fun j => nth j f 0 * ext x (2 * Z.of_nat i + 1 - Z.of_nat j))
              (seq 0 (length f))).

(** Number of coefficients of one band: [floor((n + F - 1) / 2)]. *)
Definition dwt_coeff_len (n f : nat) : nat := (n + f - 1) / 2.

Definition band (f x : list Q) : list Q :=
  map (conv_at f x) (seq 0 (dwt_coeff_len (length x) (length f))).

(** [pywt.dwt(data, w)]: the approximation and the detail coefficients;
    an empty signal is refused. *)
Definition dwt (w : wavelet) (x : list Q) : result (list Q * list Q) :=
  match x with
  | [] => Raise ValueError
  | _ => Ret (band (dec_lo w) x, band (dec_hi w) x)
  end.

End Pywt.

(** ** bpm_detect_1.py *)

(** [no_audio_data()] returns [(None, None)]: no estimate, no correlation. *)
Definition no_audio_data {A : Type} : result (option A) := Ret None.

(** [peak_detect(data)]. *)
Definition peak_detect (data : list Q) : result (list nat) :=
  max_val <- Np.amax (Np.abs data) ;;
  let peak_ndx := Np.where_eq data max_val in
  if Nat.eqb (length peak_ndx) 0
  then Ret (Np.where_eq data (- max_val))
  else Ret peak_ndx.

Definition levels : nat := 4.

Definition max_decimation : Z := (2 ^ (Z.of_nat levels - 1))%Z.

(** [fs / max_decimation], a float division. *)
Definition decimated_rate (fs : Z) : Q := inject_Z fs / inject_Z max_decimation.

Definition min_ndx (fs : Z) : Z := Py.floor (60.0 / 220 * decimated_rate fs).
Definition max_ndx (fs : Z) : Z := Py.floor (60.0 / 40 * decimated_rate fs).

(** The smoothing call of steps 2 and "add the approximation":
    [signal.lfilter([0.01], [1 - 0.99], x)].  The denominator list has the
    single entry [1 - 0.99]. *)
Definition smooth (x : list Q) : result (list Q) :=
  Scipy.lfilter [0.01] [1 - 0.99] x.

(** Step 3 of the loop body: [abs(cD[::2 ** (levels - loop - 1)])], then
    the subtraction of [numpy.mean] of that array. *)
Definition envelope (loop : nat) (cD : list Q) : result (list Q) :=
  let cD1 := Np.abs (Py.stride (2 ^ (levels - loop - 1)) cD) in
  m <- Np.mean cD1 ;;
  Ret (Np.sub_scalar cD1 m).

(** The variables that live across the iterations of the level loop. *)
Record loop_state : Type :=
  { cA : list Q; cD_sum : list Q; cD_minlen : Q }.

(** One iteration of [for loop in range(0, levels)]. *)
Definition level_step (data : list Q) (st : loop_state) (loop : nat)
  : result loop_state :=
  '(cA1, cD) <- Pywt.dwt Pywt.db4 (if Nat.eqb loop 0 then data else cA st) ;;
  let minlen :=
    if Nat.eqb loop 0
    then inject_Z (Py.len cD) / inject_Z max_decimation + 1
    else cD_minlen st in
  let sum0 :=
    if Nat.eqb loop 0 then Np.zeros (Py.floor minlen) else cD_sum st in
  cD1 <- smooth cD ;;
  cD2 <- envelope loop cD1 ;;
  sum1 <- Np.add (Py.slice cD2 0 (Py.floor minlen)) sum0 ;;
  Ret {| cA := cA1; cD_sum := sum1; cD_minlen := minlen |}.

Fixpoint run_levels (data : list Q) (st : loop_state) (loops : list nat)
  : result loop_state :=
  match loops with
  | [] => Ret st
  | loop :: rest =>
      st1 <- level_step data st loop ;;
      run_levels data st1 rest
  end.

(** The state before the loop: [cA = []], [cD_sum = []]. *)
Definition init_state : loop_state :=
  {| cA := []; cD_sum := []; cD_minlen := 0 |}.

Definition decompose (data : list Q) : result loop_state :=
  run_levels data init_state (seq 0 levels).

(** [60.0 / lag * (fs / max_decimation)] for one entry of the index array;
    numpy divides by a zero lag without raising and yields inf. *)
Definition bpm_of_lag (fs : Z) (lag : Z) : result Q :=
  if (lag =? 0)%Z then Raise NonFinite
  else Ret (60.0 / inject_Z lag * decimated_rate fs).

Fixpoint map_result {A B : Type} (f : A -> result B) (l : list A)
  : result (list B) :=
  match l with
  | [] => Ret []
  | a :: t => b <- f a ;; bs <- map_result f t ;; Ret (b :: bs)
  end.

(** The part of [bpm_detector] after the level loop. *)
Definition estimate (fs : Z) (st : loop_state)
  : result (option (list Q * list Q)) :=
  if forallb (fun b => Qeq_bool b 0) (cA st) then no_audio_data
  else
    cA1 <- smooth (cA st) ;;
    let cA2 := Np.abs cA1 in
    m <- Np.mean cA2 ;;
    let cA3 := Np.sub_scalar cA2 m in
    sum1 <- Np.add (Py.slice cA3 0 (Py.floor (cD_minlen st))) (cD_sum st) ;;
    correl <- Np.correlate sum1 sum1 ;;
    let midpoint := Py.floor (inject_Z (Py.len correl) / 2) in
    let correl_midpoint_tmp := Py.slice_from correl midpoint in
    if ((min_ndx fs >=? Py.len correl_midpoint_tmp)
        || (max_ndx fs >? Py.len correl_midpoint_tmp))%Z
    then no_audio_data
    else
      peak_ndx <- peak_detect
                    (Py.slice correl_midpoint_tmp (min_ndx fs) (max_ndx fs)) ;;
      if Nat.eqb (length peak_ndx) 0 then no_audio_data
      else
        let peak_ndx_adjusted :=
          map (fun i => (Z.of_nat i + min_ndx fs)%Z) peak_ndx in
        bpm <- map_result (bpm_of_lag fs) peak_ndx_adjusted ;;
        Ret (Some (bpm, correl)).

(** [bpm_detector(data, fs)]: [Ret None] is the [(None, None)] of
    [no_audio_data]; otherwise the array [bpm] (one entry per peak index)
    and the correlation. *)
Definition bpm_detector (data : list Q) (fs : Z)
  : result (option (list Q * list Q)) :=
  st <- decompose data ;;
  estimate fs st.

(** The windowing and aggregation code that [detect_file_bpm] (lines
    118-145) and [detect_segment_bpm] (lines 164-191) both contain. *)

(** [window_samps]: [int(window_size * fs)], replaced by the number of
    samples when there are fewer samples than that. *)
Definition window_samps (nsamps : Z) (window_size : Q) (fs : Z) : Z :=
  let w := Py.int (window_size * inject_Z fs) in
  if (nsamps <? w)%Z then nsamps else w.

(** [math.floor(nsamps / window_samps)]; Python raises on a zero divisor. *)
Definition max_window_ndx (nsamps wsamps : Z) : result Z :=
  if (wsamps =? 0)%Z then Raise ZeroDivisionError
  else Ret (Py.floor (inject_Z nsamps / inject_Z wsamps)).

(** [samps[samps_ndx : samps_ndx + window_samps]] with
    [samps_ndx = window_ndx * window_samps]. *)
Definition window_data (samps : list Q) (wsamps : Z) (window_ndx : Z)
  : list Q :=
  let samps_ndx := (window_ndx * wsamps)%Z in
  Py.slice samps samps_ndx (samps_ndx + wsamps).

(** The windows the loop visits, in order. *)
Definition windows (samps : list Q) (wsamps : Z) (n_windows : Z)
  : list (list Q) :=
  map (window_data samps wsamps) (Py.range n_windows).

(** The loop over the windows: every estimate that is not [None] is
    appended to [bpms]; an exception of [bpm_detector] ends the loop. *)
Fixpoint collect_bpms (fs : Z) (ws : list (list Q)) (bpms : list (list Q))
  : result (list (list Q)) :=
  match ws with
  | [] => Ret bpms
  | data :: rest =>
      r <- bpm_detector data fs ;;
      match r with
      | Some (bpm, _) => collect_bpms fs rest (bpms ++ [bpm])
      | None => collect_bpms fs rest bpms
      end
  end.

(** [if not bpms: return None], else
    [round(float(numpy.median(bpms)), 1)]. *)
Definition aggregate (bpms : list (list Q)) : result (option Q) :=
  match bpms with
  | [] => Ret None
  | _ => bpm <- Np.median bpms ;; Ret (Some (Py.round1 bpm))
  end.

Definition analyze_windows (samps : list Q) (fs : Z) (window_size : Q)
  : result (option Q) :=
  let nsamps := Py.len samps in
  let wsamps := window_samps nsamps window_size fs in
  n <- max_window_ndx nsamps wsamps ;;
  bpms <- collect_bpms fs (windows samps wsamps n) [] ;;
  aggregate bpms.

(** [detect_file_bpm(audio_path, window_size)].  The file system and the
    decoder are outside the model: [audio] is what [read_wav] delivers for
    the path, [None] when the file is missing or cannot be decoded. *)
Definition detect_file_bpm (audio : option (list Q * Z)) (window_size : Q)
  : result (option Q) :=
  match audio with
  | None => Ret None
  | Some (samps, fs) => analyze_windows samps fs window_size
  end.

(** The range test of [detect_segment_bpm] (line 157). *)
Definition invalid_range (n start_sample end_sample : Z) : bool :=
  ((start_sample >=? n) || (end_sample >? n)
   || (start_sample >=? end_sample))%Z.

Definition segment_bounds (fs : Z) (start_time end_time : Q) : Z * Z :=
  (Py.int (start_time * inject_Z fs), Py.int (end_time * inject_Z fs)).

(** [detect_segment_bpm(audio_data, fs, start_time, end_time, window_size)]. *)
Definition detect_segment_bpm (audio_data : list Q) (fs : Z)
           (start_time end_time : Q) (window_size : Q) : result (option Q) :=
  let '(start_sample, end_sample) := segment_bounds fs start_time end_time in
  if invalid_range (Py.len audio_data) start_sample end_sample then Ret None
  else
    let segment_data := Py.slice audio_data start_sample end_sample in
    analyze_windows segment_data fs window_size.

(** ** Windows used in the examples *)

(** The samples [0, 1, ..., n-1]. *)
Definition ramp (n : nat) : list Q :=
  map (fun i => inject_Z (Z.of_nat i)) (seq 0 n).


(** [n] samples of digital silence. *)
Definition silence (n : nat) : list Q := repeat 0 n.

(** ** Reference definitions, written from the specification's wording *)

Module Spec.

(** The recurrence of the Multi-Level Decomposer:
    [output[n] = 0.01 input[n] + 0.99 output[n-1]], from rest. *)
Fixpoint iir_from (prev : Q) (x : list Q) : list Q :=
  match x with
  | [] => []
  | v :: t => let y := 0.01 * v + 0.99 * prev in y :: iir_from y t
  end.

Definition iir (x : list Q) : list Q := iir_from 0 x.

(** The envelope in the order of the specification: absolute value, then
    the subtraction of the mean of that full-rate signal, then the
    subsampling by [2^(L-1-level)]. *)
Definition envelope (level : nat) (cD : list Q) : result (list Q) :=
  let r := Np.abs cD in
  m <- Np.mean r ;;
  Ret (Py.stride (2 ^ (levels - level - 1)) (Np.sub_scalar r m)).

(** [argmax(abs(x))] with all ties: the indices of maximal magnitude. *)
Definition argmax_abs (data : list Q) : result (list nat) :=
  max_val <- Np.amax (Np.abs data) ;;
  Ret (Np.where_eq (Np.abs data) max_val).

(** The largest value [60 / lag * (fs / 8)] over the lags that the search
    [correl[min_ndx : max_ndx]] can return (a lag of zero has no finite
    value). *)
Definition max_reported_bpm (fs : Z) : Q :=
  60.0 / inject_Z (Z.max 1 (min_ndx fs)) * decimated_rate fs.


End Spec.

(** ** The batch drivers of bpm_detect_1.py *)

(** Python [str] methods used on file names.  Strings are sequences of
    characters; [lower] maps the letters A-Z, which is all that can make a
    name match the lower-case ASCII suffixes tested below. *)
Module Str.

Definition lower_char (c : ascii) : ascii :=
  let n := nat_of_ascii c in
  if (Nat.leb 65 n && Nat.leb n 90)%bool then ascii_of_nat (n + 32) else c.

(** [s.lower()]. *)
Fixpoint lower (s : String.string) : String.string :=
  match s with
  | String.EmptyString => String.EmptyString
  | String.String c t => String.String (lower_char c) (lower t)
  end.

(** [s.endswith(suffix)]. *)
Definition endswith (s suffix : String.string) : bool :=
  let n := String.length s in
  let m := String.length suffix in
  if Nat.leb m n then String.eqb (String.substring (n - m) m s) suffix
  else false.

(** [s.replace(old, "")] for a non-empty [old]: every occurrence of [old],
    found from the left and not overlapping, is removed.  [skip] counts
    the characters of an occurrence still to be dropped. *)
Fixpoint remove_from (old : String.string) (skip : nat) (s : String.string)
  : String.string :=
  match s with
  | String.EmptyString => String.EmptyString
  | String.String c t =>
      match skip with
      | S k => remove_from old k t
      | O =>
          if String.prefix old s
          then remove_from old (String.length old - 1) t
          else String.String c (remove_from old 0 t)
      end
  end.

Definition remove (old s : String.string) : String.string :=
  remove_from old 0 s.

(** [os.path.splitext(name)[1]] for a bare file name, as [os.listdir]
    returns them: the part from the last dot on, unless only dots come
    before that dot. *)
Fixpoint last_dot (s : String.string) (i : nat) (found : option nat)
  : option nat :=
  match s with
  | String.EmptyString => found
  | String.String c t =>
      last_dot t (S i) (if Ascii.eqb c "."%char then Some i else found)
  end.

Fixpoint all_dots (s : String.string) : bool :=
  match s with
  | String.EmptyString => true
  | String.String c t => Ascii.eqb c "."%char && all_dots t
  end.

Definition splitext_ext (name : String.string) : String.string :=
  match last_dot name 0 None with
  | None => String.EmptyString
  | Some d =>
      if all_dots (String.substring 0 d name) then String.EmptyString
      else String.substring d (String.length name - d) name
  end.

End Str.

(** The audio formats both folder drivers look for, in their order. *)
Definition supported_formats : list String.string :=
  [".wav"; ".mp3"; ".flac"; ".m4a"; ".ogg"]%string.

(** [except Exception]: the handler of the folder drivers catches every
    Python exception.  A computation that left the rationals raised
    nothing in Python, so it is not caught: the model ends there. *)
Definition try_except {A : Type} (c : result A) : result (option A) :=
  match c with
  | Ret a => Ret (Some a)
  | Raise NonFinite => Raise NonFinite
  | Raise _ => Ret None
  end.

(** One entry of the segment file: the two keys the code reads. *)
Record segment : Type := { seg_start_time : Q; seg_end_time : Q }.

(** The dictionary built for one segment (lines 243-249). *)
Record segment_result : Type :=
  { segment_index : nat;
    sr_start_time : Q;
    sr_end_time : Q;
    sr_duration : Q;
    sr_bpm : option Q }.

(** The dictionary [results] of [process_audio_with_segments]. *)
Record segment_report : Type :=
  { report_audio_file : String.string;
    total_segments : nat;
    report_segments : list segment_result }.

(** The loop of lines 235-251: [i] is the index that [enumerate] gives to
    the head of [segs], [acc] is [results["segments"]] so far. *)
Fixpoint segment_loop (audio : list Q) (fs : Z) (window_size : Q)
         (i : nat) (segs : list segment) (acc : list segment_result)
  : result (list segment_result) :=
  match segs with
  | [] => Ret acc
  | s :: rest =>
      bpm <- detect_segment_bpm audio fs (seg_start_time s) (seg_end_time s)
                                window_size ;;
      let segment_result :=
        {| segment_index := i;
           sr_start_time := seg_start_time s;
           sr_end_time := seg_end_time s;
           sr_duration := seg_end_time s - seg_start_time s;
           sr_bpm := bpm |} in
      segment_loop audio fs window_size (S i) rest (acc ++ [segment_result])
  end.

(** [process_audio_with_segments(audio_file, segment_file, output_folder,
    window_size)].  The files are outside the model: [segment_data] is the
    list under the key ["segments"] of the decoded segment file, [None]
    when [load_segments] returns nothing (or an empty document); [audio]
    is what [read_wav] delivers; [audio_name] is the base name of the
    audio file.  The JSON file written at the end is the returned
    dictionary. *)
Definition process_audio_with_segments
           (audio_name : String.string) (audio : option (list Q * Z))
           (segment_data : option (list segment)) (window_size : Q)
  : result (option segment_report) :=
  match segment_data with
  | None => Ret None
  | Some segs =>
      match audio with
      | None => Ret None
      | Some (samples, fs) =>
          rs <- segment_loop samples fs window_size 0 segs [] ;;
          Ret (Some {| report_audio_file := audio_name;
                       total_segments := length segs;
                       report_segments := rs |})
      end
  end.

(** The two counters that both folder drivers print at the end. *)
Record counters : Type := { processed : nat; errors : nat }.

(** One entry of [results] in [process_audio_folder]. *)
Record bpm_result : Type := { br_audio_file : String.string; br_bpm : Q }.

(** The file filter of [process_audio_folder] (lines 322-323). *)
Definition is_supported (filename : String.string) : bool :=
  existsb (String.eqb (Str.lower (Str.splitext_ext filename)))
          supported_formats.

(** The loop of [process_audio_folder] over [os.listdir(audio_folder)]:
    [read] gives, for a listed name, what [read_wav] delivers for it. *)
Fixpoint audio_folder_loop (read : String.string -> option (list Q * Z))
         (window_size : Q) (listing : list String.string)
         (results : list bpm_result) (c : counters)
  : result (list bpm_result * counters) :=
  match listing with
  | [] => Ret (results, c)
  | filename :: rest =>
      if is_supported filename then
        r <- try_except (detect_file_bpm (read filename) window_size) ;;
        match r with
        | Some (Some bpm) =>
            audio_folder_loop read window_size rest
              (results ++ [{| br_audio_file := filename; br_bpm := bpm |}])
              {| processed := S (processed c); errors := errors c |}
        | Some None | None =>
            audio_folder_loop read window_size rest results
              {| processed := processed c; errors := S (errors c) |}
        end
      else audio_folder_loop read window_size rest results c
  end.

(** [process_audio_folder(audio_folder, output_folder, window_size)]: the
    returned [results], with the two counters it prints. *)
Definition process_audio_folder
           (read : String.string -> option (list Q * Z))
           (window_size : Q) (listing : list String.string)
  : result (list bpm_result * counters) :=
  audio_folder_loop read window_size listing []
                    {| processed := 0; errors := 0 |}.

(** The file filter of [process_segment_folder] (line 274) and the audio
    base name derived from a segment file name (line 278). *)
Definition is_segment_file (filename : String.string) : bool :=
  Str.endswith (Str.lower filename) "_segments.json"%string.

Definition audio_base_name (filename : String.string) : String.string :=
  Str.remove "_segments.json"%string filename.

(** The search of lines 281-286: the first extension, in the order of
    [supported_formats], for which the audio file exists. *)
Fixpoint find_audio_file (exists_ : String.string -> bool)
         (base : String.string) (exts : list String.string)
  : option String.string :=
  match exts with
  | [] => None
  | ext :: rest =>
      let potential_file := String.append base ext in
      if exists_ potential_file then Some potential_file
      else find_audio_file exists_ base rest
  end.

(** The loop of [process_segment_folder] over
    [os.listdir(segment_folder)]: [exists_] and [read] describe the audio
    folder, [load] the decoded segment files. *)
Fixpoint segment_folder_loop
         (exists_ : String.string -> bool)
         (read : String.string -> option (list Q * Z))
         (load : String.string -> option (list segment))
         (window_size : Q) (listing : list String.string) (c : counters)
  : result counters :=
  match listing with
  | [] => Ret c
  | filename :: rest =>
      if is_segment_file filename then
        match find_audio_file exists_ (audio_base_name filename)
                              supported_formats with
        | Some audio_file =>
            r <- try_except
                   (process_audio_with_segments audio_file (read audio_file)
                                                (load filename) window_size) ;;
            match r with
            | Some _ =>
                segment_folder_loop exists_ read load window_size rest
                  {| processed := S (processed c); errors := errors c |}
            | None =>
                segment_folder_loop exists_ read load window_size rest
                  {| processed := processed c; errors := S (errors c) |}
            end
        | None =>
            segment_folder_loop exists_ read load window_size rest
              {| processed := processed c; errors := S (errors c) |}
        end
      else segment_folder_loop exists_ read load window_size rest c
  end.

(** [process_segment_folder(segment_folder, audio_folder, output_folder,
    window_size)]: the two counters it prints. *)
Definition process_segment_folder
           (exists_ : String.string -> bool)
           (read : String.string -> option (list Q * Z))
           (load : String.string -> option (list segment))
           (window_size : Q) (listing : list String.string)
  : result counters :=
  segment_folder_loop exists_ read load window_size listing
                      {| processed := 0; errors := 0 |}.

(** Reference definitions for the folder drivers. *)
Module BatchSpec.

(** The entry a listed file contributes to [results]: one entry when the
    file has a supported extension and [detect_file_bpm] returns a
    number, none otherwise. *)
Definition contribution (read : String.string -> option (list Q * Z))
           (window_size : Q) (filename : String.string) : list bpm_result :=
  if is_supported filename then
    match detect_file_bpm (read filename) window_size with
    | Ret (Some bpm) => [{| br_audio_file := filename; br_bpm := bpm |}]
    | _ => []
    end
  else [].

(** A segment file counts as processed when an audio file is found for it
    and [process_audio_with_segments] returns, with or without a report. *)
Definition counts_as_processed
           (exists_ : String.string -> bool)
           (read : String.string -> option (list Q * Z))
           (load : String.string -> option (list segment))
           (window_size : Q) (filename : String.string) : bool :=
  is_segment_file filename
  && match find_audio_file exists_ (audio_base_name filename)
                           supported_formats with
     | Some audio_file =>
         match process_audio_with_segments audio_file (read audio_file)
                                           (load filename) window_size with
         | Ret _ => true
         | Raise _ => false
         end
     | None => false
     end.

End BatchSpec.

(** ** analyze_audio_activity.py *)

Module Activity.

(** A time interval [(start_time, end_time)], in seconds. *)
Definition interval : Type := (Q * Q)%type.

(** [x < y] on floats. *)
Definition ltb (x y : Q) : bool := negb (Qle_bool y x).

(** [a < b] on two-element tuples: decided by the first components unless
    they are equal. *)
Definition tuple_lt (a b : interval) : bool :=
  if Qeq_bool (fst a) (fst b) then ltb (snd a) (snd b)
  else ltb (fst a) (fst b).

(** [sorted(l)]: a stable sort by [<]. *)
Fixpoint insert (x : interval) (l : list interval) : list interval :=
  match l with
  | [] => [x]
  | y :: t => if tuple_lt y x then y :: insert x t else x :: l
  end.

Definition sorted (l : list interval) : list interval :=
  fold_right insert [] l.

(** The loop of [get_active_segments] (lines 76-80): the state is
    [current_time] and [active_intervals]. *)
Fixpoint active_loop (current_time : Q) (silence : list interval)
         (active_intervals : list interval) : Q * list interval :=
  match silence with
  | [] => (current_time, active_intervals)
  | (start, end_) :: rest =>
      active_loop end_ rest
        (if ltb current_time start
         then active_intervals ++ [(current_time, start)]
         else active_intervals)
  end.

(** [get_active_segments(audio_duration, silence_intervals)]. *)
Definition get_active_segments (audio_duration : Q)
           (silence_intervals : list interval) : list interval :=
  match silence_intervals with
  | [] => [(0, audio_duration)]
  | _ =>
      let '(current_time, active_intervals) :=
        active_loop 0 (sorted silence_intervals) [] in
      if ltb current_time audio_duration
      then active_intervals ++ [(current_time, audio_duration)]
      else active_intervals
  end.

(** [sum(end - start for start, end in intervals)]. *)
Definition total_duration (intervals : list interval) : Q :=
  fold_left (fun acc iv => acc + (snd iv - fst iv)) intervals 0.

(** The dictionary returned by [analyze_audio_file], without the file
    name. *)
Record audio_info : Type :=
  { duration : Q;
    silence_intervals : list interval;
    active_intervals : list interval;
    active_percentage : Q;
    total_active_duration : Q;
    total_silence_duration : Q }.

(** Lines 110-126 of [analyze_audio_file]: the summary computed from the
    duration of the audio and the silence intervals found in it. *)
Definition summarize (audio_duration : Q) (silence : list interval)
  : audio_info :=
  let active := get_active_segments audio_duration silence in
  let total_silence := total_duration silence in
  let total_active := total_duration active in
  {| duration := audio_duration;
     silence_intervals := silence;
     active_intervals := active;
     active_percentage :=
       if ltb 0 audio_duration
       then total_active / audio_duration * 100 else 0;
     total_active_duration := total_active;
     total_silence_duration := total_silence |}.

(** [librosa.frames_to_time(frame, sr=sr, hop_length=hop_length)]. *)
Definition frames_to_time (frame : nat) (sr hop_length : Z) : Q :=
  inject_Z (Z.of_nat frame * hop_length) / inject_Z sr.

(** [a[i]] on a numpy array for an index that may be negative. *)
Definition index (a : list Q) (i : Z) : Q :=
  nth (Z.to_nat (if (i <? 0)%Z then i + Py.len a else i)) a 0.

(** [numpy.diff(a)]. *)
Fixpoint diff (a : list Q) : list Q :=
  match a with
  | x :: ((y :: _) as t) => (y - x) :: diff t
  | _ => []
  end.

(** [tags = numpy.zeros(n); tags[frames] = 1]. *)
Definition set_ones (n : nat) (frames : list nat) : list Q :=
  map (fun i => if existsb (Nat.eqb i) frames then 1 else 0) (seq 0 n).

(** [numpy.where(row < v)[0]] on one row. *)
Fixpoint where_lt_from (i : nat) (row : list Q) (v : Q) : list nat :=
  match row with
  | [] => []
  | x :: t =>
      if ltb x v then i :: where_lt_from (S i) t v
      else where_lt_from (S i) t v
  end.

(** The loop of lines 52-55 over [zip(silence_starts, silence_ends)]. *)
Fixpoint silence_loop (frame_times : list Q) (min_silence_duration : Q)
         (edges : list (nat * nat)) (silence_intervals : list interval)
  : list interval :=
  match edges with
  | [] => silence_intervals
  | (start, end_) :: rest =>
      let t_start := index frame_times (Z.of_nat start - 1) in
      let t_end := index frame_times (Z.of_nat end_ - 1) in
      let duration := t_end - t_start in
      silence_loop frame_times min_silence_duration rest
        (if Qle_bool min_silence_duration duration
         then silence_intervals ++ [(t_start, t_end)]
         else silence_intervals)
  end.

(** [detect_silence(y, sr, threshold_db, min_silence_duration)] from line
    34 on.  The frame energies come from librosa and are outside the
    model: [S_db] is the one row of the array that
    [librosa.amplitude_to_db] returns, one value per frame. *)
Definition detect_silence (S_db : list Q) (sr : Z)
           (threshold_db min_silence_duration : Q) : list interval :=
  let hop_length := Py.int (inject_Z sr * 0.010) in
  let silence_frames := where_lt_from 0 S_db threshold_db in
  let frame_times :=
    map (fun frame => frames_to_time frame sr hop_length)
        (seq 0 (length S_db)) in
  if Nat.ltb 0 (length silence_frames) then
    let silence_tags := set_ones (length frame_times) silence_frames in
    let silence_edges := diff ([0] ++ silence_tags ++ [0]) in
    let silence_starts := Np.where_eq silence_edges 1 in
    let silence_ends := Np.where_eq silence_edges (-1) in
    silence_loop frame_times min_silence_duration
                 (combine silence_starts silence_ends) []
  else [].

(** [analyze_audio_file] on decoded audio: [n_samples] is [len(y)]. *)
Definition analyze_audio (n_samples : Z) (S_db : list Q) (sr : Z)
           (threshold_db min_silence_duration : Q) : audio_info :=
  let audio_duration := inject_Z n_samples / inject_Z sr in
  summarize audio_duration
            (detect_silence S_db sr threshold_db min_silence_duration).

(** Reference notions for the properties. *)

(** The intervals follow each other from [from] to [upto] without
    overlap: [from <= s1 <= e1 <= s2 <= ... <= en <= upto]. *)
Fixpoint chain (from : Q) (l : list interval) (upto : Q) : Prop :=
  match l with
  | [] => from <= upto
  | (s, e) :: t => from <= s /\ s <= e /\ chain e t upto
  end.

(** The frames below the threshold, as flags, and the value that a flag
    has in [silence_tags]. *)
Definition flags (S_db : list Q) (threshold_db : Q) : list bool :=
  map (fun v => ltb v threshold_db) S_db.

Definition flag_value (b : bool) : Q := if b then 1 else 0.



(** The time of a frame, with the hop length that [detect_silence] uses. *)
Definition frame_time (sr : Z) (frame : nat) : Q :=
  frames_to_time frame sr (Py.int (inject_Z sr * 0.010)).

(** The maximal runs of [true] in a list of flags, from index [i] on, as
    pairs (first index, index after the last); [open] is the start of the
    run that index [i] continues, if any. *)
Fixpoint runs (open : option nat) (i : nat) (flags : list bool)
  : list (nat * nat) :=
  match flags with
  | [] => match open with Some a => [(a, i)] | None => [] end
  | true :: t =>
      runs (match open with Some a => Some a | None => Some i end) (S i) t
  | false :: t =>
      match open with
      | Some a => (a, i) :: runs None (S i) t
      | None => runs None (S i) t
      end
  end.


(** Pairs of indices that follow each other with a gap:
    [lo <= a1 < b1 < a2 < b2 < ...]. *)
Fixpoint separated (lo : nat) (l : list (nat * nat)) : Prop :=
  match l with
  | [] => True
  | (a, b) :: t => (lo <= a < b)%nat /\ separated (S b) t
  end.

End Activity.

(** ** get_multitrack_links.py *)

Module Links.

(** An anchor of the page as the loop of [get_cambridge_mt_links] reads
    it (the page and its parsing are outside the model): its text, its
    [href], and the stripped text of the nearest [<strong>] element before
    it, if there is one. *)
Record link : Type :=
  { text : String.string;
    href : String.string;
    previous_strong : option String.string }.

(** The dictionary stored for a track: [{'full': ..., 'excerpt': ...}]. *)
Record entry : Type :=
  { full : option String.string; excerpt : option String.string }.

(** [needle in s] on strings. *)
Definition contains (needle s : String.string) : bool :=
  match String.index 0 needle s with
  | Some _ => true
  | None => false
  end.

(** A Python dictionary with string keys, in insertion order. *)
Definition dict : Type := list (String.string * entry).

Fixpoint dict_get (d : dict) (k : String.string) : option entry :=
  match d with
  | [] => None
  | (k', v) :: t => if String.eqb k' k then Some v else dict_get t k
  end.

(** [d[k] = v]: an existing key keeps its place and takes the new value. *)
Fixpoint dict_set (d : dict) (k : String.string) (v : entry) : dict :=
  match d with
  | [] => [(k, v)]
  | (k', v') :: t =>
      if String.eqb k' k then (k', v) :: t else (k', v') :: dict_set t k v
  end.

Definition nonempty (s : String.string) : bool :=
  negb (String.eqb s String.EmptyString).

(** The entry built from one anchor (lines 62-65). *)
Definition entry_of (l : link) : entry :=
  {| full := if contains "Full Multitrack" (text l)
             then Some (href l) else None;
     excerpt := if contains "Edited Excerpt" (text l)
                then Some (href l) else None |}.

(** The track name an anchor is filed under, when the body of the loop
    stores it (lines 57-61). *)
Definition track_of (l : link) : option String.string :=
  if nonempty (href l)
     && (contains "Full Multitrack" (text l)
         || contains "Edited Excerpt" (text l))
  then match previous_strong l with
       | Some track_name =>
           if nonempty track_name then Some track_name else None
       | None => None
       end
  else None.

(** The loop over [soup.find_all('a', href=True)]. *)
Definition found_links (links : list link) : dict :=
  fold_left
    (fun found l =>
       match track_of l with
       | Some track_name => dict_set found track_name (entry_of l)
       | None => found
       end)
    links [].

End Links.

(** * Properties *)

Ltac Zify.zify_post_hook ::= Z.to_euclidean_division_equations.

(** ** The smoothing call *)

(** With a one-entry denominator [lfilter] keeps no output history: every
    output sample is the input sample scaled by [b0 / a0]. *)
Lemma lfilter_run_single_tap (b0 a0 : Q) (xs xhist yhist : list Q) :
  Scipy.lfilter_run [b0] [] a0 xs xhist yhist
  = map (fun v => Qred ((Qred (b0 * v + 0) - 0) / a0)) xs.
Proof.
  revert xhist yhist.
  induction xs as [|x xs IH]; intros xhist yhist; simpl.
  - reflexivity.
  - rewrite IH. destruct yhist; reflexivity.
Qed.

Lemma smooth_eq (x : list Q) :
  smooth x = Ret (map (fun v => Qred ((Qred (0.01 * v + 0) - 0) / (1 - 0.99))) x).
Proof.
  unfold smooth, Scipy.lfilter.
  change (Qeq_bool (1 - 0.99) 0) with false.
  now rewrite lfilter_run_single_tap.
Qed.

Lemma smooth_length (x y : list Q) : smooth x = Ret y -> length y = length x.
Proof.
  rewrite smooth_eq. intros H. injection H as <-. apply length_map.
Qed.

Lemma smooth_pointwise (x : list Q) :
  exists y, smooth x = Ret y /\ Forall2 Qeq y x.
Proof.
  rewrite smooth_eq. eexists. split; [reflexivity|].
  induction x as [|v x IH]; cbn [map]; constructor; [|exact IH].
  rewrite !Qred_correct. field.
Qed.

(** The model of [lfilter] does compute the recurrence of the
    specification when it is given the two-entry denominator
    [[1, -0.99]]: the recurrence is what a comma in the list would give. *)
Lemma lfilter_run_feedback (xs xhist yhist : list Q) (prev : Q) :
  Scipy.dot [-0.99] yhist == -0.99 * prev ->
  Forall2 Qeq (Scipy.lfilter_run [0.01] [-0.99] 1 xs xhist yhist)
          (Spec.iir_from prev xs).
Proof.
  revert xhist yhist prev.
  induction xs as [|x xs IH]; intros xhist yhist prev Hh; cbn [Scipy.lfilter_run Spec.iir_from].
  - constructor.
  - assert (Hy : Qred ((Scipy.dot [0.01] (x :: xhist) - Scipy.dot [-0.99] yhist) / 1)
                 == 0.01 * x + 0.99 * prev).
    { rewrite Qred_correct, Hh. cbn [Scipy.dot].
      destruct xhist; rewrite Qred_correct; field. }
    constructor; [exact Hy|].
    apply IH. cbn [Scipy.dot]. rewrite Qred_correct, Hy. ring.
Qed.

Lemma lfilter_with_comma_is_iir (x : list Q) :
  exists y, Scipy.lfilter [0.01] [1; -0.99] x = Ret y
            /\ Forall2 Qeq y (Spec.iir x).
Proof.
  eexists. split; [reflexivity|].
  apply lfilter_run_feedback. reflexivity.
Qed.

(** C2 (code defect).  The smoothing call passes the one-entry denominator
    [[1 - 0.99]], so it has no feedback term: its output is the input,
    sample by sample, for every input sequence; on the impulse [[1, 0]] it
    returns [[1, 0]] where the recurrence
    [output[n] = 0.01 input[n] + 0.99 output[n-1]] gives [[0.01, 0.0099]]. *)
Theorem smooth_has_no_feedback :
  (forall x, exists y, smooth x = Ret y /\ Forall2 Qeq y x)
  /\ (exists y, smooth [1; 0] = Ret y
                /\ Forall2 Qeq y [1; 0]
                /\ Forall2 Qeq (Spec.iir [1; 0]) [0.01; 0.0099]
                /\ ~ Forall2 Qeq y (Spec.iir [1; 0])).
Proof.
  split; [exact smooth_pointwise|].
  eexists. split; [reflexivity|]. split; [|split].
  - repeat constructor; reflexivity.
  - repeat constructor; reflexivity.
  - intros H. inversion H as [|? ? ? ? H1 _]; subst. discriminate H1.
Qed.

(** ** Peak selection *)

Lemma fold_max_spec (t : list Q) (x : Q) :
  let m := fold_left (fun m y => if Qle_bool m y then y else m) t x in
  x <= m /\ (forall y, In y t -> y <= m) /\ (m = x \/ In m t).
Proof.
  revert x. induction t as [|a t IH]; intros x; cbn [fold_left].
  - split; [apply Qle_refl|]. split; [intros y []|now left].
  - destruct (Qle_bool x a) eqn:E.
    + apply Qle_bool_iff in E.
      destruct (IH a) as (H1 & H2 & H3).
      split; [eapply Qle_trans; eassumption|].
      split.
      * intros y [<-|Hy]; [exact H1|now apply H2].
      * right. destruct H3 as [->|H3]; [now left|now right].
    + assert (a <= x).
      { apply Qlt_le_weak, Qnot_le_lt. intros C.
        apply Qle_bool_iff in C. congruence. }
      destruct (IH x) as (H1 & H2 & H3).
      split; [exact H1|]. split.
      * intros y [<-|Hy]; [eapply Qle_trans; eassumption|now apply H2].
      * destruct H3 as [->|H3]; [now left|right; now right].
Qed.

(** [numpy.amax] of a non-empty array is an entry that bounds them all. *)
Lemma amax_spec (x : Q) (t : list Q) :
  exists m, Np.amax (x :: t) = Ret m
            /\ In m (x :: t) /\ forall y, In y (x :: t) -> y <= m.
Proof.
  destruct (fold_max_spec t x) as (H1 & H2 & H3).
  eexists. split; [reflexivity|]. split.
  - destruct H3 as [->|H3]; [now left|now right].
  - intros y [<-|Hy]; [exact H1|now apply H2].
Qed.

Lemma where_eq_from_spec (l : list Q) (v : Q) (k i : nat) :
  In i (Np.where_eq_from k l v)
  <-> (k <= i)%nat /\ (i - k < length l)%nat /\ nth (i - k) l 0 == v.
Proof.
  revert k. induction l as [|x l IH]; intros k; cbn [Np.where_eq_from].
  - split; [intros []|]. cbn [length]. lia.
  - assert (Hx : Qeq_bool x v = true <-> x == v) by apply Qeq_bool_iff.
    assert (Hstep : In i (Np.where_eq_from (S k) l v)
                    <-> (k < i)%nat /\ (i - k < length (x :: l))%nat
                         /\ nth (i - k) (x :: l) 0 == v).
    { rewrite IH. cbn [length].
      split.
      - intros (A & B & C). replace (i - k)%nat with (S (i - S k)) by lia.
        cbn [nth]. repeat split; try lia. exact C.
      - intros (A & B & C). replace (i - k)%nat with (S (i - S k)) in C by lia.
        cbn [nth] in C. repeat split; try lia. exact C. }
    destruct (Qeq_bool x v) eqn:E.
    + cbn [In]. rewrite Hstep. split.
      * intros [<-|(A & B & C)].
        -- rewrite Nat.sub_diag. cbn [nth length].
           repeat split; try lia. now apply Hx.
        -- repeat split; try lia; assumption.
      * intros (A & B & C).
        destruct (Nat.eq_dec k i) as [->|N]; [now left|right].
        repeat split; try lia; assumption.
    + rewrite Hstep. split.
      * intros (A & B & C). repeat split; try lia; assumption.
      * intros (A & B & C).
        destruct (Nat.eq_dec k i) as [->|N].
        -- rewrite Nat.sub_diag in C. cbn [nth] in C.
           apply Hx in C. congruence.
        -- repeat split; try lia; assumption.
Qed.

Lemma where_eq_spec (l : list Q) (v : Q) (i : nat) :
  In i (Np.where_eq l v) <-> (i < length l)%nat /\ nth i l 0 == v.
Proof.
  unfold Np.where_eq. rewrite where_eq_from_spec, Nat.sub_0_r.
  split; [intros (_ & A & B)|intros (A & B)]; repeat split; auto with arith.
Qed.


Lemma in_abs (y : Q) (l : list Q) : In y l -> In (Qabs y) (Np.abs l).
Proof. apply in_map. Qed.

(** The maximum of the magnitudes is attained, with one sign or the other. *)
Lemma amax_abs_attained (x : Q) (t : list Q) :
  exists m, Np.amax (Np.abs (x :: t)) = Ret m
    /\ (forall y, In y (x :: t) -> Qabs y <= m)
    /\ exists i, (i < length (x :: t))%nat
                 /\ (nth i (x :: t) 0 == m \/ nth i (x :: t) 0 == - m).
Proof.
  destruct (amax_spec (Qabs x) (Np.abs t)) as (m & Hm & Hin & Hmax).
  exists m. split; [exact Hm|]. split.
  - intros y Hy. apply Hmax. now apply (in_abs y (x :: t)).
  - change (Qabs x :: Np.abs t) with (map Qabs (x :: t)) in Hin.
    apply in_map_iff in Hin. destruct Hin as (y & Hy & Hyin).
    destruct (In_nth _ _ 0 Hyin) as (i & Hi & Hnth).
    exists i. split; [exact Hi|]. rewrite Hnth, <- Hy.
    destruct (Qlt_le_dec y 0) as [Hneg|Hpos].
    + right. rewrite Qabs_neg by now apply Qlt_le_weak. ring.
    + left. now rewrite Qabs_pos.
Qed.

(** C8.  On a non-empty slice [peak_detect] returns, with [m] the largest
    magnitude of the slice, the indices where the slice equals [+m] when
    there is one, and otherwise the indices where it equals [-m]; the
    returned set is never empty.  The rule differs from the arg-max of the
    magnitudes when both signs reach [m]: on [[2, -2]] it returns [[0]],
    the arg-max of [abs] is [[0, 1]]. *)
Theorem peak_detect_rule :
  (forall (x : Q) (xs : list Q),
     let data := x :: xs in
     exists (m : Q) (peak_ndx : list nat),
       peak_detect data = Ret peak_ndx
       /\ (forall y, In y data -> Qabs y <= m)
       /\ (exists y, In y data /\ Qabs y == m)
       /\ ((exists i, (i < length data)%nat /\ nth i data 0 == m) ->
           forall i, In i peak_ndx
                     <-> (i < length data)%nat /\ nth i data 0 == m)
       /\ (~ (exists i, (i < length data)%nat /\ nth i data 0 == m) ->
           forall i, In i peak_ndx
                     <-> (i < length data)%nat /\ nth i data 0 == - m)
       /\ peak_ndx <> [])
  /\ peak_detect [2; -2] = Ret [0%nat]
  /\ Spec.argmax_abs [2; -2] = Ret [0%nat; 1%nat]
  /\ peak_detect [1; -2; -2] = Ret [1%nat; 2%nat].
Proof.
  split; [|repeat split; reflexivity].
  intros x xs data.
  destruct (amax_abs_attained x xs) as (m & Hm & Hmax & i0 & Hi0 & Hsign).
  fold data in Hm, Hmax, Hi0, Hsign.
  exists m. unfold peak_detect. rewrite Hm. cbn [bind].
  assert (Hm0 : 0 <= m).
  { eapply Qle_trans; [apply (Qabs_nonneg x)|]. apply Hmax. now left. }
  assert (Hatt : exists y, In y data /\ Qabs y == m).
  { exists (nth i0 data 0). split; [now apply nth_In|].
    destruct Hsign as [E|E]; rewrite E.
    - now apply Qabs_pos.
    - rewrite Qabs_opp. now apply Qabs_pos. }
  destruct (Np.where_eq data m) as [|p ps] eqn:Epos; cbn [length Nat.eqb].
  - (* no entry equals +m: the fallback *)
    assert (Hnone : ~ exists i, (i < length data)%nat /\ nth i data 0 == m).
    { intros (i & Hi & E).
      assert (Hin : In i (Np.where_eq data m)) by (apply where_eq_spec; auto).
      rewrite Epos in Hin. destruct Hin. }
    eexists. split; [reflexivity|]. split; [exact Hmax|].
    split; [exact Hatt|]. split; [intros C; contradiction|].
    split; [intros _ i; apply where_eq_spec|].
    destruct Hsign as [E|E]; [exfalso; apply Hnone; eauto|].
    intros C. assert (Hin : In i0 (Np.where_eq data (- m)))
      by (apply where_eq_spec; auto).
    rewrite C in Hin. destruct Hin.
  - eexists. split; [reflexivity|]. split; [exact Hmax|].
    split; [exact Hatt|]. rewrite <- Epos.
    split; [intros _ i; apply where_eq_spec|].
    split; [|rewrite Epos; discriminate].
    intros C. exfalso. apply C. exists p.
    apply where_eq_spec. rewrite Epos. now left.
Qed.

(** ** The per-level envelope *)

Lemma sum_spec (l : list Q) : Np.sum l == fold_right Qplus 0 l.
Proof.
  induction l as [|x l IH]; cbn [Np.sum fold_right]; [reflexivity|].
  rewrite Qred_correct. fold (Np.sum l). now rewrite IH.
Qed.

Lemma stride_length (s : nat) (l : list Q) :
  length (Py.stride s l) = ((length l + s - 1) / s)%nat.
Proof. unfold Py.stride. now rewrite length_map, length_seq. Qed.

Lemma stride_nth (s : nat) (l : list Q) (i : nat) :
  (i < length (Py.stride s l))%nat ->
  nth i (Py.stride s l) 0 = nth (i * s) l 0.
Proof.
  rewrite stride_length. intros Hi. unfold Py.stride.
  rewrite (nth_indep _ 0 ((fun i => nth (i * s) l 0) 0%nat))
    by now rewrite length_map, length_seq.
  rewrite (map_nth (fun i => nth (i * s) l 0)), seq_nth by exact Hi.
  reflexivity.
Qed.

Lemma stride_nonempty (s : nat) (l : list Q) :
  (0 < s)%nat -> l <> [] -> Py.stride s l <> [].
Proof.
  intros Hs Hl E. apply (f_equal (@length Q)) in E.
  rewrite stride_length in E. cbn [length] in E.
  destruct l as [|x l]; [easy|]. cbn [length] in E.
  apply Nat.div_small_iff in E; lia.
Qed.

(** Rectifying and subsampling commute; centring and subsampling do not. *)
Lemma abs_stride (s : nat) (l : list Q) :
  Np.abs (Py.stride s l) = Py.stride s (Np.abs l).
Proof.
  unfold Np.abs, Py.stride. rewrite map_map, length_map.
  apply map_ext. intros i.
  change 0 with (Qabs 0) at 2. now rewrite map_nth.
Qed.

Lemma pow2_pos (k : nat) : (0 < 2 ^ k)%nat.
Proof. induction k; cbn; lia. Qed.

Lemma mean_spec (l : list Q) :
  l <> [] ->
  exists m, Np.mean l = Ret m
            /\ m * inject_Z (Py.len l) == fold_right Qplus 0 l.
Proof.
  intros Hl. destruct l as [|x l]; [easy|].
  eexists. split; [reflexivity|].
  rewrite Qred_correct, sum_spec. field.
  unfold Py.len. cbn [length]. intros C.
  unfold Qeq in C. cbn in C. lia.
Qed.

(** C3 (amended).  The envelope of a filtered detail signal [x] at a level
    is obtained by subsampling first: with [s = 2^(levels - level - 1)],
    entry [i] is [|x[i s]| - m], where [m] is the mean of the magnitudes of
    the subsampled entries [x[0], x[s], x[2 s], ...] only. *)
Theorem envelope_centres_after_subsampling (loop : nat) (x : list Q) :
  x <> [] ->
  let s := (2 ^ (levels - loop - 1))%nat in
  let sub := Py.stride s x in
  exists (e : list Q) (m : Q),
    envelope loop x = Ret e
    /\ length e = ((length x + s - 1) / s)%nat
    /\ m * inject_Z (Py.len sub) == fold_right Qplus 0 (map Qabs sub)
    /\ forall i, (i < length e)%nat ->
                 nth i e 0 == Qabs (nth (i * s) x 0) - m.
Proof.
  intros Hx s sub.
  assert (Hsub : Np.abs sub <> []).
  { unfold Np.abs. intros C. apply map_eq_nil in C.
    revert C. apply stride_nonempty; [apply pow2_pos|exact Hx]. }
  destruct (mean_spec _ Hsub) as (m & Hm & Hmean).
  unfold envelope. fold s. fold sub. rewrite Hm. cbn [bind].
  exists (Np.sub_scalar (Np.abs sub) m), m.
  split; [reflexivity|].
  assert (Hlen : length (Np.sub_scalar (Np.abs sub) m)
                 = length sub).
  { unfold Np.sub_scalar, Np.abs. now rewrite !length_map. }
  split; [rewrite Hlen; apply stride_length|].
  split.
  { rewrite <- Hmean. unfold Py.len, Np.abs. now rewrite length_map. }
  intros i Hi. rewrite Hlen in Hi.
  unfold Np.sub_scalar.
  rewrite (nth_indep _ 0 ((fun v => Qred (v - m)) 0))
    by (unfold Np.abs; now rewrite !length_map).
  rewrite (map_nth (fun v => Qred (v - m))), Qred_correct.
  unfold Np.abs. change 0 with (Qabs 0) at 1. rewrite map_nth.
  unfold sub. now rewrite stride_nth.
Qed.

Lemma envelope_centres_after_subsampling_witness :
  exists (e : list Q) (m : Q),
    envelope 2 [1; 3; -5; 7] = Ret e
    /\ length e = 2%nat
    /\ m * 2 == 1 + (5 + 0)
    /\ forall i, (i < length e)%nat ->
                 nth i e 0 == Qabs (nth (i * 2) [1; 3; -5; 7] 0) - m.
Proof.
  apply (envelope_centres_after_subsampling 2 [1; 3; -5; 7]).
  discriminate.
Defined.

(** C3 as stated fails: on the detail coefficients of the window
    [[1, 0, 0, 0]] the code's envelope at level 0 is [[0]] (the one
    subsampled magnitude minus itself), while rectifying and centring at
    full rate before subsampling leaves a non-zero entry. *)
Lemma envelope_is_not_centred_at_full_rate :
  exists cA0 cD0 cD1 e_code e_spec,
    Pywt.dwt Pywt.db4 [1; 0; 0; 0] = Ret (cA0, cD0)
    /\ smooth cD0 = Ret cD1
    /\ envelope 0 cD1 = Ret e_code
    /\ Spec.envelope 0 cD1 = Ret e_spec
    /\ e_code = [0]
    /\ ~ Forall2 Qeq e_code e_spec.
Proof.
  do 5 eexists.
  split; [vm_compute; reflexivity|].
  split; [vm_compute; reflexivity|].
  split; [vm_compute; reflexivity|].
  split; [vm_compute; reflexivity|].
  split; [reflexivity|].
  intros H. inversion H as [|? ? ? ? H1 _]; subst.
  vm_compute in H1. discriminate H1.
Qed.

(** ** Lengths through the level loop *)

Lemma floor_minlen (n : Z) :
  Py.floor (inject_Z n / inject_Z max_decimation + 1) = (n / 8 + 1)%Z.
Proof.
  unfold Py.floor. change (inject_Z max_decimation) with (inject_Z 8).
  assert (E : inject_Z n / inject_Z 8 + 1 == (n + 8) # 8).
  { unfold Qeq, Qdiv, Qmult, Qplus, Qinv, inject_Z. cbn. lia. }
  rewrite E. unfold Qfloor. cbn. lia.
Qed.

Lemma slice_prefix_length (l : list Q) (k : Z) :
  (0 <= k)%Z ->
  length (Py.slice l 0 k) = Nat.min (Z.to_nat k) (length l).
Proof.
  intros Hk. unfold Py.slice, Py.clamp, Py.len.
  destruct (k <? 0)%Z eqn:E; [lia|].
  cbn [Z.ltb Z.compare]. rewrite length_firstn.
  replace (Z.to_nat (Z.min 0 (Z.of_nat (length l)))) with 0%nat by lia.
  cbn [skipn]. lia.
Qed.

Lemma add_same_length (a b : list Q) :
  length a = length b ->
  exists c, Np.add a b = Ret c /\ length c = length b.
Proof.
  intros H. unfold Np.add. rewrite H, Nat.eqb_refl.
  eexists. split; [reflexivity|].
  revert b H. induction a as [|x a IH]; intros [|y b] H; cbn in *; try lia.
  f_equal. apply IH. lia.
Qed.

Lemma add_mismatch (a b : list Q) :
  length a <> length b -> length a <> 1%nat -> length b <> 1%nat ->
  Np.add a b = Raise ValueError.
Proof.
  intros H Ha Hb. unfold Np.add.
  apply Nat.eqb_neq in H. rewrite H.
  destruct a as [|x [|x' a]]; destruct b as [|y [|y' b]]; cbn in *;
    try reflexivity; congruence.
Qed.

Lemma add_stretch_left (x : Q) (b : list Q) :
  length b <> 1%nat ->
  exists c, Np.add [x] b = Ret c /\ length c = length b.
Proof.
  intros H. unfold Np.add.
  destruct (Nat.eqb (length [x]) (length b)) eqn:E.
  - apply Nat.eqb_eq in E. cbn in E. congruence.
  - eexists. split; [reflexivity|]. apply length_map.
Qed.

Lemma band_length (f x : list Q) :
  length (Pywt.band f x) = ((length x + length f - 1) / 2)%nat.
Proof. unfold Pywt.band, Pywt.dwt_coeff_len. now rewrite length_map, length_seq. Qed.

Lemma dwt_db4_ok (x : list Q) :
  x <> [] ->
  exists a d, Pywt.dwt Pywt.db4 x = Ret (a, d)
              /\ length a = ((length x + 7) / 2)%nat
              /\ length d = ((length x + 7) / 2)%nat.
Proof.
  intros Hx. destruct x as [|v x]; [easy|].
  do 2 eexists. split; [reflexivity|].
  rewrite !band_length. cbn [Pywt.db4 Pywt.dec_lo Pywt.dec_hi length].
  split; f_equal; lia.
Qed.

Lemma dwt_empty (w : Pywt.wavelet) : Pywt.dwt w [] = Raise ValueError.
Proof. reflexivity. Qed.

Lemma envelope_length (loop : nat) (x : list Q) :
  x <> [] ->
  exists e, envelope loop x = Ret e
            /\ length e = ((length x + 2 ^ (levels - loop - 1) - 1)
                           / 2 ^ (levels - loop - 1))%nat.
Proof.
  intros Hx. unfold envelope.
  set (s := (2 ^ (levels - loop - 1))%nat).
  assert (Hsub : Np.abs (Py.stride s x) <> []).
  { unfold Np.abs. intros C. apply map_eq_nil in C.
    revert C. apply stride_nonempty; [apply pow2_pos|exact Hx]. }
  destruct (mean_spec _ Hsub) as (m & Hm & _).
  rewrite Hm. cbn [bind]. eexists. split; [reflexivity|].
  unfold Np.sub_scalar, Np.abs. now rewrite !length_map, stride_length.
Qed.

Lemma zeros_length (n : Z) : length (Np.zeros n) = Z.to_nat n.
Proof. apply repeat_length. Qed.

Lemma nonempty_length {A : Type} (l : list A) : (0 < length l)%nat -> l <> [].
Proof. destruct l; cbn; [lia|discriminate]. Qed.

(** The first iteration: the composite is created with
    [floor(len(cD) / 8) + 1] entries and receives the level-0 envelope,
    which has [ceil(len(cD) / 8)] entries. *)
Lemma level_step_first (data : list Q) :
  data <> [] ->
  let l0 := ((length data + 7) / 2)%nat in
  ((l0 mod 8 <> 0 \/ l0 = 8)%nat ->
   exists st, level_step data init_state 0 = Ret st
              /\ length (cA st) = l0
              /\ length (cD_sum st) = (l0 / 8 + 1)%nat
              /\ Py.floor (cD_minlen st) = Z.of_nat (l0 / 8 + 1))
  /\ ((l0 mod 8 = 0 /\ 16 <= l0)%nat ->
      level_step data init_state 0 = Raise ValueError).
Proof.
  intros Hd l0.
  destruct (dwt_db4_ok data Hd) as (a & d & Hdwt & Ha & Hlen).
  fold l0 in Ha, Hlen.
  assert (Hl0 : (4 <= l0)%nat).
  { destruct data; [easy|]. unfold l0. cbn [length]. lia. }
  unfold level_step. cbn [Nat.eqb]. rewrite Hdwt. cbn [bind].
  rewrite smooth_eq. cbn [bind].
  set (d1 := map _ d).
  assert (Hd1 : length d1 = l0) by (unfold d1; now rewrite length_map).
  destruct (envelope_length 0 d1) as (e & He & Hel).
  { apply nonempty_length. lia. }
  rewrite He. cbn [bind].
  change (2 ^ (levels - 0 - 1))%nat with 8%nat in Hel. rewrite Hd1 in Hel.
  unfold Py.len. rewrite Hlen, floor_minlen.
  set (M := (Z.of_nat l0 / 8 + 1)%Z).
  assert (HM : Z.to_nat M = (l0 / 8 + 1)%nat) by (unfold M; lia).
  assert (Hs : length (Py.slice e 0 M)
               = Nat.min (l0 / 8 + 1) ((l0 + 8 - 1) / 8)).
  { rewrite slice_prefix_length by (unfold M; lia). now rewrite HM, Hel. }
  assert (Hz : length (Np.zeros M) = (l0 / 8 + 1)%nat)
    by now rewrite zeros_length.
  split.
  - intros [Hmod|H8].
    + destruct (add_same_length (Py.slice e 0 M) (Np.zeros M))
        as (c & Hc & Hcl); [rewrite Hs, Hz; lia|].
      rewrite Hc. cbn [bind]. eexists. split; [reflexivity|].
      cbn [cA cD_sum cD_minlen].
      repeat split; [exact Ha|now rewrite Hcl|].
      rewrite floor_minlen. fold M. lia.
    + assert (Hs1 : length (Py.slice e 0 M) = 1%nat)
        by (rewrite Hs, H8; reflexivity).
      destruct (Py.slice e 0 M) as [|v [|v' s']]; try discriminate Hs1.
      destruct (add_stretch_left v (Np.zeros M)) as (c & Hc & Hcl).
      { rewrite Hz, H8. discriminate. }
      rewrite Hc. cbn [bind]. eexists. split; [reflexivity|].
      cbn [cA cD_sum cD_minlen].
      repeat split; [exact Ha|now rewrite Hcl|].
      rewrite floor_minlen. fold M. lia.
  - intros (Hmod & H16).
    rewrite add_mismatch; [reflexivity| | |]; rewrite ?Hs, ?Hz; lia.
Qed.

(** A later iteration: the envelope is long enough for the composite. *)
Lemma level_step_next (data : list Q) (st : loop_state) (loop : nat) :
  loop <> 0%nat ->
  cA st <> [] ->
  Py.floor (cD_minlen st) = Z.of_nat (length (cD_sum st)) ->
  let l := ((length (cA st) + 7) / 2)%nat in
  let s := (2 ^ (levels - loop - 1))%nat in
  (length (cD_sum st) <= (l + s - 1) / s)%nat ->
  exists st', level_step data st loop = Ret st'
              /\ length (cA st') = l
              /\ length (cD_sum st') = length (cD_sum st)
              /\ cD_minlen st' = cD_minlen st.
Proof.
  intros Hloop HcA Hfl l s Hle.
  destruct (dwt_db4_ok (cA st) HcA) as (a & d & Hdwt & Ha & Hlen).
  fold l in Ha, Hlen.
  assert (Hl : (4 <= l)%nat).
  { destruct (cA st); [easy|]. unfold l. cbn [length]. lia. }
  unfold level_step. apply Nat.eqb_neq in Hloop. rewrite Hloop.
  rewrite Hdwt. cbn [bind]. rewrite smooth_eq. cbn [bind].
  set (d1 := map _ d).
  assert (Hd1 : length d1 = l) by (unfold d1; now rewrite length_map).
  destruct (envelope_length loop d1) as (e & He & Hel).
  { apply nonempty_length. lia. }
  rewrite He. cbn [bind]. fold s in Hel. rewrite Hd1 in Hel.
  destruct (add_same_length (Py.slice e 0 (Py.floor (cD_minlen st)))
                            (cD_sum st)) as (c & Hc & Hcl).
  { rewrite slice_prefix_length by lia. rewrite Hfl, Hel. lia. }
  rewrite Hc. cbn [bind]. eexists. split; [reflexivity|].
  cbn [cA cD_sum cD_minlen]. repeat split; assumption.
Qed.

(** The whole level loop, by the length of the level-0 detail signal
    [l0 = floor((n + 7) / 2)] of an [n]-sample window. *)
Lemma decompose_ok (data : list Q) :
  data <> [] ->
  let l0 := ((length data + 7) / 2)%nat in
  (l0 mod 8 <> 0 \/ l0 = 8)%nat ->
  exists st, decompose data = Ret st
             /\ length (cD_sum st) = (l0 / 8 + 1)%nat
             /\ Py.floor (cD_minlen st) = Z.of_nat (l0 / 8 + 1)
             /\ length (cA st) = ((((l0 + 7) / 2 + 7) / 2 + 7) / 2)%nat
             /\ (length (cD_sum st) <= length (cA st))%nat.
Proof.
  intros Hd l0 Hl0.
  assert (H4 : (4 <= l0)%nat).
  { destruct data; [easy|]. unfold l0. cbn [length]. lia. }
  unfold decompose. change (seq 0 levels) with [0; 1; 2; 3]%nat.
  cbn [run_levels].
  destruct (level_step_first data Hd) as [Hfirst _].
  destruct (Hfirst Hl0) as (st0 & E0 & A0 & S0 & F0).
  fold l0 in A0, S0, F0. rewrite E0. cbn [bind].
  destruct (level_step_next data st0 1) as (st1 & E1 & A1 & S1 & F1);
    [discriminate|apply nonempty_length; lia|rewrite F0, S0; reflexivity| |].
  { change (2 ^ (levels - 1 - 1))%nat with 4%nat. rewrite S0, A0. lia. }
  rewrite E1. cbn [bind].
  destruct (level_step_next data st1 2) as (st2 & E2 & A2 & S2 & F2);
    [discriminate|apply nonempty_length; lia
    |rewrite F1, S1, F0, S0; reflexivity| |].
  { change (2 ^ (levels - 2 - 1))%nat with 2%nat. rewrite S1, S0, A1, A0. lia. }
  rewrite E2. cbn [bind].
  destruct (level_step_next data st2 3) as (st3 & E3 & A3 & S3 & F3);
    [discriminate|apply nonempty_length; lia
    |rewrite F2, S2, F1, S1, F0, S0; reflexivity| |].
  { change (2 ^ (levels - 3 - 1))%nat with 1%nat.
    rewrite S2, S1, S0, A2, A1, A0. lia. }
  rewrite E3. cbn [bind]. exists st3. split; [reflexivity|].
  rewrite S3, S2, S1, S0, F3, F2, F1, F0, A3, A2, A1, A0.
  repeat split; lia.
Qed.

Lemma decompose_raises (data : list Q) :
  let l0 := ((length data + 7) / 2)%nat in
  (l0 mod 8 = 0)%nat -> (16 <= l0)%nat ->
  decompose data = Raise ValueError.
Proof.
  intros l0 Hmod H16.
  assert (Hd : data <> []).
  { intros ->. cbn in l0. subst l0. lia. }
  unfold decompose. change (seq 0 levels) with [0; 1; 2; 3]%nat.
  cbn [run_levels].
  destruct (level_step_first data Hd) as [_ Hraise].
  now rewrite Hraise.
Qed.

(** C4 (code defect).  The composite has [floor(l0 / 8) + 1] entries while
    the level-0 envelope, a stride-8 subsampling of [l0] entries, has only
    [l0 / 8] of them when 8 divides [l0]: the addition of line 73 then
    adds arrays of different lengths and raises ValueError, and so does
    [bpm_detector], for every window of that length (at least 16 detail
    coefficients, i.e. windows of 25, 26, 41, 42, ... samples). *)
Theorem bpm_detector_raises_on_aligned_detail_length
        (data : list Q) (fs : Z) :
  (((length data + 7) / 2) mod 8 = 0)%nat ->
  (16 <= (length data + 7) / 2)%nat ->
  bpm_detector data fs = Raise ValueError.
Proof.
  intros Hmod H16. unfold bpm_detector.
  now rewrite decompose_raises.
Qed.

Lemma bpm_detector_raises_on_aligned_detail_length_witness :
  bpm_detector (ramp 25) 44100 = Raise ValueError.
Proof.
  apply (bpm_detector_raises_on_aligned_detail_length (ramp 25) 44100);
    vm_compute; [reflexivity|lia].
Defined.

(** ** The estimator *)

Ltac bind_inv H :=
  match type of H with
  | bind ?c _ = Ret _ =>
      let E := fresh "E" in
      destruct c eqn:E; cbn [bind] in H; [|discriminate H]
  end.

Lemma map_result_spec {A B : Type} (f : A -> result B) (l : list A)
      (r : list B) :
  map_result f l = Ret r -> Forall2 (fun a b => f a = Ret b) l r.
Proof.
  revert r. induction l as [|a l IH]; intros r H; cbn [map_result] in H.
  - injection H as <-. constructor.
  - bind_inv H. bind_inv H. injection H as <-.
    constructor; [assumption|now apply IH].
Qed.


(** What a successful return of the estimator stage consists of. *)
Lemma estimate_some (fs : Z) (st : loop_state) (bpm correl : list Q) :
  estimate fs st = Ret (Some (bpm, correl)) ->
  let tmp := Py.slice_from correl (Py.floor (inject_Z (Py.len correl) / 2)) in
  exists peak_ndx,
    (min_ndx fs < Py.len tmp)%Z /\ (max_ndx fs <= Py.len tmp)%Z
    /\ peak_detect (Py.slice tmp (min_ndx fs) (max_ndx fs)) = Ret peak_ndx
    /\ peak_ndx <> []
    /\ map_result (bpm_of_lag fs)
                  (map (fun i => (Z.of_nat i + min_ndx fs)%Z) peak_ndx)
       = Ret bpm.
Proof.
  unfold estimate, no_audio_data. intros H.
  destruct (forallb _ (cA st)); [discriminate H|].
  do 4 bind_inv H.
  match type of H with
  | (if ?c then _ else _) = _ => destruct c eqn:Erange; [discriminate H|]
  end.
  bind_inv H.
  destruct (Nat.eqb (length a3) 0) eqn:Elen; [discriminate H|].
  bind_inv H. injection H as <- <-.
  apply orb_false_iff in Erange. destruct Erange as [R1 R2].
  exists a3. repeat split; try lia; try assumption.
  intros ->. discriminate Elen.
Qed.

Lemma bpm_detector_some (data : list Q) (fs : Z) (bpm correl : list Q) :
  bpm_detector data fs = Ret (Some (bpm, correl)) ->
  exists st, decompose data = Ret st
             /\ estimate fs st = Ret (Some (bpm, correl)).
Proof.
  unfold bpm_detector. intros H. bind_inv H. eauto.
Qed.






(** ** Range of the reported values *)







(** ** The median and the rounding *)

Section Interval.

Variable P : Q -> Prop.
Hypothesis P_mid : forall a b, P a -> P b -> P ((a + b) / 2).








End Interval.









(** The bound at the usual rate of 44100 Hz: the first searched lag is
    1503, whose value is 220.06 BPM. *)
Lemma max_reported_bpm_44100 :
  min_ndx 44100 = 1503%Z
  /\ Spec.max_reported_bpm 44100 == 330750 # 1503
  /\ 220 < Spec.max_reported_bpm 44100.
Proof. repeat split. Qed.


(** ** Silent windows *)

Lemma all_zero_forallb (l : list Q) :
  Forall (fun b => b == 0) l <-> forallb (fun b => Qeq_bool b 0) l = true.
Proof.
  rewrite forallb_forall, Forall_forall.
  split; intros H b Hb; apply Qeq_bool_iff; now apply H.
Qed.

Lemma estimate_silent (fs : Z) (st : loop_state) :
  Forall (fun b => b == 0) (cA st) -> estimate fs st = Ret None.
Proof.
  intros H. apply all_zero_forallb in H.
  unfold estimate. now rewrite H.
Qed.

(** C5.  When the level loop has run and the final approximation [cA] is
    entirely zero, [bpm_detector] returns the [(None, None)] of
    [no_audio_data] whatever the sample rate: no BPM value, 0 or other,
    is produced for the window. *)
Theorem zero_approximation_gives_no_audio_data
        (data : list Q) (fs : Z) (st : loop_state) :
  decompose data = Ret st ->
  Forall (fun b => b == 0) (cA st) ->
  bpm_detector data fs = no_audio_data.
Proof.
  intros Hdec Hzero. unfold bpm_detector. rewrite Hdec. cbn [bind].
  now apply estimate_silent.
Qed.

Lemma zero_approximation_gives_no_audio_data_witness :
  bpm_detector (silence 60) 44100 = no_audio_data.
Proof.
  eapply (zero_approximation_gives_no_audio_data (silence 60) 44100).
  - vm_compute. reflexivity.
  - apply all_zero_forallb. vm_compute. reflexivity.
Defined.

(** Digital silence in, zero approximation out. *)
Lemma sum_zero (l : list Q) : Forall (fun b => b == 0) l -> Np.sum l == 0.
Proof.
  induction 1 as [|x l Hx _ IH]; cbn [Np.sum fold_right]; [reflexivity|].
  fold (Np.sum l). rewrite Qred_correct, Hx, IH. reflexivity.
Qed.

Lemma ext_zero (x : list Q) (k : Z) :
  Forall (fun b => b == 0) x -> Pywt.ext x k == 0.
Proof.
  intros H. unfold Pywt.ext.
  destruct (nth_in_or_default (Z.to_nat (Pywt.reflect (Py.len x) k)) x 0)
    as [Hin| ->]; [|reflexivity].
  eapply Forall_forall in H; [exact H|exact Hin].
Qed.

Lemma band_zero (f x : list Q) :
  Forall (fun b => b == 0) x -> Forall (fun b => b == 0) (Pywt.band f x).
Proof.
  intros H. unfold Pywt.band. apply Forall_map, Forall_forall.
  intros i _. unfold Pywt.conv_at. apply sum_zero.
  apply Forall_map, Forall_forall. intros j _.
  rewrite (ext_zero x _ H). ring.
Qed.

Lemma level_step_cA (data : list Q) (st st' : loop_state) (loop : nat) :
  level_step data st loop = Ret st' ->
  cA st' = Pywt.band (Pywt.dec_lo Pywt.db4)
                     (if Nat.eqb loop 0 then data else cA st).
Proof.
  unfold level_step, Pywt.dwt. intros H.
  destruct (if Nat.eqb loop 0 then data else cA st) as [|v x];
    [discriminate H|].
  cbn [bind] in H. do 3 bind_inv H. now injection H as <-.
Qed.

Lemma run_levels_zero (data : list Q) (loops : list nat) (st st' : loop_state) :
  Forall (fun b => b == 0) data ->
  Forall (fun b => b == 0) (cA st) ->
  run_levels data st loops = Ret st' ->
  Forall (fun b => b == 0) (cA st').
Proof.
  intros Hd. revert st.
  induction loops as [|loop loops IH]; intros st Hst H; cbn [run_levels] in H.
  - now injection H as <-.
  - bind_inv H. apply (IH a); [|exact H].
    rewrite (level_step_cA _ _ _ _ E). apply band_zero.
    now destruct (Nat.eqb loop 0).
Qed.

Lemma silence_zero (n : nat) : Forall (fun b => b == 0) (silence n).
Proof.
  unfold silence. apply Forall_forall. intros b Hb.
  apply repeat_spec in Hb. now subst.
Qed.

(** A silent window never yields a number: it gives [no_audio_data]
    whenever the level loop completes. *)
Lemma silent_window_outcome (n : nat) (fs : Z) :
  bpm_detector (silence n) fs = no_audio_data
  \/ exists e, bpm_detector (silence n) fs = Raise e.
Proof.
  destruct (decompose (silence n)) as [st|e] eqn:E.
  - left. unfold bpm_detector. rewrite E. cbn [bind].
    apply estimate_silent. unfold decompose in E.
    apply (run_levels_zero _ _ _ _ (silence_zero n)) in E; [exact E|].
    constructor.
  - right. exists e. unfold bpm_detector. now rewrite E.
Qed.

(** With a window length for which the loop completes, silence fails with
    [no_audio_data]. *)
Lemma silent_window_fails (n : nat) (fs : Z) :
  (0 < n)%nat ->
  (((n + 7) / 2) mod 8 <> 0 \/ (n + 7) / 2 = 8)%nat ->
  bpm_detector (silence n) fs = no_audio_data.
Proof.
  intros Hn Hl0.
  destruct (decompose_ok (silence n)) as (st & E & _).
  - apply nonempty_length. unfold silence. rewrite repeat_length. exact Hn.
  - unfold silence. rewrite repeat_length. exact Hl0.
  - unfold bpm_detector. rewrite E. cbn [bind].
    apply estimate_silent. unfold decompose in E.
    apply (run_levels_zero _ _ _ _ (silence_zero n)) in E; [exact E|].
    constructor.
Qed.

(** ** Windowing *)

Lemma int_nonneg (x : Q) : 0 <= x -> (0 <= Py.int x)%Z.
Proof.
  intros H. unfold Py.int. apply Z.quot_pos; [|lia].
  unfold Qle in H. cbn in H. lia.
Qed.

Lemma floor_ratio (a b : Z) :
  (0 < b)%Z -> Py.floor (inject_Z a / inject_Z b) = (a / b)%Z.
Proof.
  intros Hb. destruct b as [|p|p]; try lia.
  unfold Py.floor, Qdiv, Qinv, inject_Z, Qmult, Qfloor. cbn.
  now rewrite Z.mul_1_r.
Qed.

(** C6 (code defect).  For the empty sample sequence [window_samps] is
    set to the sample count, 0, and [math.floor(nsamps / window_samps)]
    divides by zero: [detect_file_bpm] raises ZeroDivisionError instead
    of analysing zero windows or the sequence as one window. *)
Theorem empty_sequence_raises (fs : Z) (window_size : Q) :
  (0 < fs)%Z -> 0 < window_size ->
  detect_file_bpm (Some ([], fs)) window_size = Raise ZeroDivisionError.
Proof.
  intros Hfs Hw. cbn [detect_file_bpm]. unfold analyze_windows.
  assert (Hi : (0 <= Py.int (window_size * inject_Z fs))%Z).
  { apply int_nonneg. apply Qmult_le_0_compat; [now apply Qlt_le_weak|].
    change 0 with (inject_Z 0). rewrite <- Zle_Qle. lia. }
  assert (E : window_samps (Py.len (@nil Q)) window_size fs = 0%Z).
  { unfold window_samps. change (Py.len (@nil Q)) with 0%Z.
    destruct (0 <? Py.int (window_size * inject_Z fs))%Z eqn:C; lia. }
  rewrite E. reflexivity.
Qed.

Lemma empty_sequence_raises_witness :
  detect_file_bpm (Some ([], 44100%Z)) 3 = Raise ZeroDivisionError.
Proof.
  apply (empty_sequence_raises 44100 3); reflexivity.
Defined.

(** A window duration below one sample period fails the same way, for
    any sequence. *)
Lemma short_window_raises (samps : list Q) (fs : Z) (window_size : Q) :
  Py.int (window_size * inject_Z fs) = 0%Z ->
  detect_file_bpm (Some (samps, fs)) window_size = Raise ZeroDivisionError.
Proof.
  intros Hi. cbn [detect_file_bpm]. unfold analyze_windows.
  assert (E : window_samps (Py.len samps) window_size fs = 0%Z).
  { unfold window_samps. rewrite Hi. unfold Py.len.
    destruct (Z.of_nat (length samps) <? 0)%Z eqn:C; lia. }
  rewrite E. reflexivity.
Qed.

Lemma slice_nonneg {A : Type} (l : list A) (a b : Z) :
  (0 <= a <= b)%Z -> (b <= Py.len l)%Z ->
  Py.slice l a b = firstn (Z.to_nat (b - a)) (skipn (Z.to_nat a) l).
Proof.
  intros Hab Hb. unfold Py.slice, Py.clamp.
  destruct (a <? 0)%Z eqn:Ea; [lia|].
  destruct (b <? 0)%Z eqn:Eb; [lia|].
  now rewrite !Z.min_l by lia.
Qed.

(** Away from these two cases the windowing is as the specification
    says: [floor(nsamps / w)] windows of [w] samples each, window [i]
    starting at sample [i w], with [w] the window length in samples, or
    the whole sequence when it is shorter than one window. *)
Lemma windows_regular (samps : list Q) (fs : Z) (window_size : Q) :
  samps <> [] ->
  (1 <= Py.int (window_size * inject_Z fs))%Z ->
  let nsamps := Py.len samps in
  let w := window_samps nsamps window_size fs in
  w = Z.min nsamps (Py.int (window_size * inject_Z fs))
  /\ max_window_ndx nsamps w = Ret (nsamps / w)%Z
  /\ length (windows samps w (nsamps / w)) = Z.to_nat (nsamps / w)
  /\ (forall i, (i < Z.to_nat (nsamps / w))%nat ->
        nth i (windows samps w (nsamps / w)) []
        = firstn (Z.to_nat w) (skipn (i * Z.to_nat w) samps)
        /\ length (nth i (windows samps w (nsamps / w)) []) = Z.to_nat w)
  /\ ((nsamps < Py.int (window_size * inject_Z fs))%Z ->
      windows samps w (nsamps / w) = [samps]).
Proof.
  intros Hne Hi nsamps w.
  assert (Hn : (1 <= nsamps)%Z).
  { unfold nsamps, Py.len. destruct samps; [easy|cbn [length]; lia]. }
  assert (Hw : w = Z.min nsamps (Py.int (window_size * inject_Z fs))).
  { unfold w, window_samps.
    destruct (nsamps <? _)%Z eqn:C; lia. }
  assert (Hw1 : (1 <= w <= nsamps)%Z) by lia.
  split; [exact Hw|].
  split.
  { unfold max_window_ndx. destruct (w =? 0)%Z eqn:C; [lia|].
    now rewrite floor_ratio by lia. }
  assert (Hlen : length (windows samps w (nsamps / w)) = Z.to_nat (nsamps / w)).
  { unfold windows, Py.range. now rewrite !length_map, length_seq. }
  split; [exact Hlen|].
  assert (Hnth : forall i, (i < Z.to_nat (nsamps / w))%nat ->
            nth i (windows samps w (nsamps / w)) []
            = firstn (Z.to_nat w) (skipn (i * Z.to_nat w) samps)).
  { intros i Hlt. unfold windows, Py.range. rewrite map_map.
    rewrite (nth_indep _ [] ((fun x => window_data samps w (Z.of_nat x)) 0%nat))
      by now rewrite length_map, length_seq.
    rewrite (map_nth (fun x => window_data samps w (Z.of_nat x))), seq_nth
      by exact Hlt.
    cbn [Nat.add]. unfold window_data.
    assert (Hb : (Z.of_nat i * w + w <= nsamps)%Z).
    { assert (Z.of_nat i + 1 <= nsamps / w)%Z by lia.
      assert (w * (nsamps / w) <= nsamps)%Z by (apply Z.mul_div_le; lia).
      nia. }
    rewrite slice_nonneg by (fold nsamps; nia).
    f_equal; [f_equal; lia|f_equal; nia]. }
  split.
  - intros i Hlt. split; [now apply Hnth|].
    rewrite (Hnth i Hlt), length_firstn, length_skipn.
    assert (Z.of_nat i * w + w <= nsamps)%Z.
    { assert (Z.of_nat i + 1 <= nsamps / w)%Z by lia.
      assert (w * (nsamps / w) <= nsamps)%Z by (apply Z.mul_div_le; lia).
      nia. }
    unfold nsamps, Py.len in *. nia.
  - intros Hshort.
    assert (Ew : w = nsamps) by lia.
    assert (E1 : (nsamps / w = 1)%Z) by (rewrite Ew; apply Z.div_same; lia).
    rewrite E1 in Hlen, Hnth.
    destruct (windows samps w 1) as [|x [|y t]] eqn:Ews;
      cbn [length] in Hlen; try (cbn in Hlen; lia).
    specialize (Hnth 0%nat ltac:(cbn; lia)). cbn [nth] in Hnth.
    rewrite E1, Ews. f_equal. rewrite Hnth. cbn [Nat.mul skipn].
    rewrite Ew. unfold nsamps, Py.len. rewrite Nat2Z.id. apply firstn_all.
Qed.

(** ** Aggregation over the windows *)







Lemma window_bpm_nonempty (data : list Q) (fs : Z) (bpm correl : list Q) :
  bpm_detector data fs = Ret (Some (bpm, correl)) -> bpm <> [].
Proof.
  intros H.
  destruct (bpm_detector_some _ _ _ _ H) as (st & _ & Hest).
  destruct (estimate_some _ _ _ _ Hest) as (p & _ & _ & _ & Hne & Hmap).
  apply map_result_spec, Forall2_length in Hmap.
  rewrite length_map in Hmap. intros ->.
  destruct p; [contradiction|discriminate Hmap].
Qed.

Lemma collect_bpms_nonempty (fs : Z) (ws : list (list Q))
      (acc bpms : list (list Q)) :
  Forall (fun row => row <> []) acc ->
  collect_bpms fs ws acc = Ret bpms ->
  Forall (fun row => row <> []) bpms.
Proof.
  revert acc.
  induction ws as [|data ws IH]; intros acc Hacc H; cbn [collect_bpms] in H.
  - now injection H as <-.
  - bind_inv H. destruct a as [[bpm correl]|].
    + apply (IH (acc ++ [bpm])); [|exact H].
      apply Forall_app. split; [exact Hacc|].
      constructor; [|constructor].
      eapply window_bpm_nonempty; eassumption.
    + now apply (IH acc).
Qed.





(** ** The range test of segments *)

Lemma div_frac_mono (a b p q : Z) :
  (0 < p)%Z -> (0 < q)%Z -> (a * q <= b * p)%Z -> (a / p <= b / q)%Z.
Proof.
  intros Hp Hq H. apply Z.div_le_lower_bound; [exact Hq|].
  assert (p * (a / p) <= a)%Z by (apply Z.mul_div_le; exact Hp).
  nia.
Qed.

(** [int] truncates toward zero, and is monotone. *)
Lemma int_mono (x y : Q) : x <= y -> (Py.int x <= Py.int y)%Z.
Proof.
  unfold Py.int, Qle. destruct x as [a p], y as [b q]. cbn [Qnum Qden].
  intros H.
  assert (Hp : (0 < Z.pos p)%Z) by lia. assert (Hq : (0 < Z.pos q)%Z) by lia.
  destruct (Z_lt_le_dec a 0) as [Ha|Ha]; destruct (Z_lt_le_dec b 0) as [Hb|Hb].
  - replace a with (- - a)%Z by lia. replace b with (- - b)%Z by lia.
    rewrite !(Z.quot_opp_l (- _)) by lia.
    rewrite !Z.quot_div_nonneg by lia.
    apply Z.opp_le_mono. rewrite !Z.opp_involutive.
    apply div_frac_mono; lia.
  - apply Z.le_trans with 0%Z.
    + replace a with (- - a)%Z by lia. rewrite Z.quot_opp_l by lia.
      rewrite Z.quot_div_nonneg by lia.
      assert (0 <= - a / Z.pos p)%Z by (apply Z.div_pos; lia). lia.
    + apply Z.quot_pos; lia.
  - nia.
  - rewrite !Z.quot_div_nonneg by lia. apply div_frac_mono; lia.
Qed.

(** What the test of line 157 does reject: a start at or after the end,
    a start at or past the last sample, an end more than one sample period
    past the last sample. *)
Lemma segment_rejected (audio_data : list Q) (fs : Z)
      (start_time end_time window_size : Q) :
  (0 < fs)%Z ->
  end_time <= start_time
  \/ inject_Z (Py.len audio_data) <= start_time * inject_Z fs
  \/ inject_Z (Py.len audio_data) + 1 <= end_time * inject_Z fs ->
  detect_segment_bpm audio_data fs start_time end_time window_size = Ret None.
Proof.
  intros Hfs H. unfold detect_segment_bpm, segment_bounds, invalid_range.
  assert (Hf : 0 < inject_Z fs).
  { change 0 with (inject_Z 0). now rewrite <- Zlt_Qlt. }
  set (n := Py.len audio_data) in *.
  assert (Hint : forall z, Py.int (inject_Z z) = z).
  { intros z. unfold Py.int. cbn. apply Z.quot_1_r. }
  destruct H as [H|[H|H]].
  - assert (Py.int (end_time * inject_Z fs)
            <= Py.int (start_time * inject_Z fs))%Z.
    { apply int_mono. now apply Qmult_le_compat_r; [|apply Qlt_le_weak]. }
    destruct (_ >=? n)%Z; destruct (_ >? n)%Z; cbn [orb]; try reflexivity.
    destruct (_ >=? _)%Z eqn:C; [reflexivity|lia].
  - apply int_mono in H. rewrite Hint in H.
    destruct (_ >=? n)%Z eqn:C; [reflexivity|lia].
  - assert (H' : inject_Z (n + 1) <= end_time * inject_Z fs)
      by (rewrite inject_Z_plus; exact H).
    apply int_mono in H'. rewrite Hint in H'.
    destruct (_ >=? n)%Z; cbn [orb]; [reflexivity|].
    destruct (_ >? n)%Z eqn:C; [reflexivity|lia].
Qed.

(** A negative start passes the test whenever it lies before the end: the
    segment is then cut with Python's negative indexing, from the end of
    the audio, and analysed. *)
Lemma negative_start_passes_range_test (audio_data : list Q) (fs : Z)
      (start_time end_time window_size : Q) :
  let b := segment_bounds fs start_time end_time in
  (fst b < 0)%Z -> (fst b < snd b)%Z -> (snd b <= Py.len audio_data)%Z ->
  detect_segment_bpm audio_data fs start_time end_time window_size
  = analyze_windows (Py.slice audio_data (fst b) (snd b)) fs window_size.
Proof.
  intros b H1 H2 H3. unfold detect_segment_bpm.
  fold b. destruct b as [s e]. cbn [fst snd] in *.
  unfold invalid_range, Py.len in *.
  destruct (s >=? _)%Z eqn:C1; [lia|].
  destruct (e >? _)%Z eqn:C2; [lia|].
  destruct (s >=? e)%Z eqn:C3; [lia|]. reflexivity.
Qed.

(** C9 (code defect).  The range test has no check for a negative bound.
    On four seconds of audio at 30 Hz the request from -2 s to 4 s gives
    the sample bounds -60 and 120, passes the test, is cut as
    [audio_data[-60:120]], the last 60 samples, and is analysed: the
    result is 225.0 BPM, not the rejection [None]. *)
Theorem negative_start_time_is_analysed :
  segment_bounds 30 (-2) 4 = ((-60)%Z, 120%Z)
  /\ invalid_range (Py.len (ramp 120)) (-60) 120 = false
  /\ Py.slice (ramp 120) (-60) 120 = skipn 60 (ramp 120)
  /\ exists r,
       detect_segment_bpm (ramp 120) 30 (-2) 4 3 = Ret (Some r)
       /\ r == 225.
Proof.
  split; [reflexivity|]. split; [reflexivity|]. split; [reflexivity|].
  eexists. split; [vm_compute; reflexivity|reflexivity].
Qed.

(** ** When a window has an estimate *)

Lemma correlate_length (a c : list Q) :
  Np.correlate a a = Ret c -> length c = (2 * length a - 1)%nat.
Proof.
  unfold Np.correlate. destruct a as [|x a]; [discriminate|].
  intros H. injection H as <-. rewrite length_map, length_seq. cbn [length]. lia.
Qed.

Lemma correlate_ok (a : list Q) :
  a <> [] -> exists c, Np.correlate a a = Ret c.
Proof. destruct a; [easy|]. intros _. eexists. reflexivity. Qed.

Lemma slice_from_length {A : Type} (l : list A) (m : Z) :
  (0 <= m <= Py.len l)%Z ->
  length (Py.slice_from l m) = (length l - Z.to_nat m)%nat.
Proof.
  intros H. unfold Py.slice_from, Py.clamp. rewrite length_skipn.
  unfold Py.len in *. destruct (m <? 0)%Z eqn:E; lia.
Qed.

Lemma floor_half (z : Z) : Py.floor (inject_Z z / 2) = (z / 2)%Z.
Proof. apply (floor_ratio z 2). lia. Qed.

Lemma not_all_zero_nonempty (l : list Q) :
  forallb (fun b => Qeq_bool b 0) l = false -> l <> [].
Proof. destruct l; [discriminate|discriminate]. Qed.

Lemma abs_length (l : list Q) : length (Np.abs l) = length l.
Proof. apply length_map. Qed.

Lemma sub_scalar_length (l : list Q) (c : Q) :
  length (Np.sub_scalar l c) = length l.
Proof. apply length_map. Qed.

(** The estimator up to its range test: with a final approximation that is
    not all zero and at least as long as the composite, the correlation has
    [2 m - 1] entries for a composite of [m], and its causal half has [m]. *)
Lemma estimate_to_range_test (fs : Z) (st : loop_state) :
  forallb (fun b => Qeq_bool b 0) (cA st) = false ->
  Py.floor (cD_minlen st) = Z.of_nat (length (cD_sum st)) ->
  (0 < length (cD_sum st) <= length (cA st))%nat ->
  exists correl,
    length correl = (2 * length (cD_sum st) - 1)%nat
    /\ length (Py.slice_from correl (Py.floor (inject_Z (Py.len correl) / 2)))
       = length (cD_sum st)
    /\ estimate fs st =
       let tmp :=
         Py.slice_from correl (Py.floor (inject_Z (Py.len correl) / 2)) in
       if ((min_ndx fs >=? Py.len tmp) || (max_ndx fs >? Py.len tmp))%Z
       then no_audio_data
       else
         peak_ndx <- peak_detect (Py.slice tmp (min_ndx fs) (max_ndx fs)) ;;
         if Nat.eqb (length peak_ndx) 0 then no_audio_data
         else
           bpm <- map_result (bpm_of_lag fs)
                    (map (fun i => (Z.of_nat i + min_ndx fs)%Z) peak_ndx) ;;
           Ret (Some (bpm, correl)).
Proof.
  intros Hnz Hfl [Hm Hle]. unfold estimate. rewrite Hnz.
  rewrite smooth_eq. cbn [bind].
  set (cA1 := map _ (cA st)).
  assert (HcA1 : length cA1 = length (cA st)) by (unfold cA1; apply length_map).
  destruct (mean_spec (Np.abs cA1)) as (m & Hmean & _).
  { apply nonempty_length. rewrite abs_length, HcA1. lia. }
  rewrite Hmean. cbn [bind].
  destruct (add_same_length
              (Py.slice (Np.sub_scalar (Np.abs cA1) m) 0
                        (Py.floor (cD_minlen st))) (cD_sum st))
    as (sum1 & Hadd & Hsum1).
  { rewrite slice_prefix_length by lia.
    rewrite sub_scalar_length, abs_length, HcA1, Hfl. lia. }
  rewrite Hadd. cbn [bind].
  destruct (correlate_ok sum1) as (correl & Hc).
  { apply nonempty_length. lia. }
  rewrite Hc. cbn [bind]. exists correl.
  pose proof (correlate_length _ _ Hc) as Hlen. rewrite Hsum1 in Hlen.
  split; [exact Hlen|]. split; [|reflexivity].
  rewrite floor_half, slice_from_length; unfold Py.len; rewrite Hlen; lia.
Qed.

Lemma min_ndx_lt_max_ndx (fs : Z) :
  (1 <= min_ndx fs)%Z -> (min_ndx fs < max_ndx fs)%Z.
Proof.
  intros H. unfold min_ndx, max_ndx, Py.floor in *.
  set (r := decimated_rate fs) in *.
  assert (E1 : 60.0 / 220 * r == (3 # 11) * r) by field.
  assert (E2 : 60.0 / 40 * r == (3 # 2) * r) by field.
  set (X := 60.0 / 220 * r) in *. set (Y := 60.0 / 40 * r) in *.
  pose proof (Qfloor_le X) as Hlo.
  assert (H1 : 1 <= X).
  { eapply Qle_trans; [|exact Hlo].
    change 1 with (inject_Z 1). now rewrite <- Zle_Qle. }
  assert (Hstep : (Qfloor X + 1 <= Qfloor Y)%Z).
  { rewrite <- (Qfloor_Z (Qfloor X + 1)).
    apply Qfloor_resp_le. rewrite inject_Z_plus.
    change (inject_Z 1) with 1. clearbody X Y. lra. }
  lia.
Qed.

Lemma peak_detect_nonempty (x : Q) (xs : list Q) :
  exists p, peak_detect (x :: xs) = Ret p /\ p <> [].
Proof.
  destruct (amax_abs_attained x xs) as (m & Hm & _ & i0 & Hi0 & Hsign).
  unfold peak_detect. rewrite Hm. cbn [bind].
  destruct (Np.where_eq (x :: xs) m) as [|p ps] eqn:Epos; cbn [length Nat.eqb].
  - eexists. split; [reflexivity|].
    destruct Hsign as [E|E].
    + assert (Hin : In i0 (Np.where_eq (x :: xs) m))
        by (apply where_eq_spec; auto).
      rewrite Epos in Hin. destruct Hin.
    + intros C.
      assert (Hin : In i0 (Np.where_eq (x :: xs) (- m)))
        by (apply where_eq_spec; auto).
      rewrite C in Hin. destruct Hin.
  - eexists. split; [reflexivity|discriminate].
Qed.

Lemma map_result_ok {A B : Type} (f : A -> result B) (l : list A) :
  (forall a, In a l -> exists b, f a = Ret b) ->
  exists r, map_result f l = Ret r /\ length r = length l.
Proof.
  induction l as [|a l IH]; intros H; cbn [map_result].
  - exists []. split; reflexivity.
  - destruct (H a (or_introl eq_refl)) as (b & Hb).
    destruct IH as (r & Hr & Hlen); [intros a' Ha'; apply H; now right|].
    rewrite Hb, Hr. cbn [bind]. exists (b :: r).
    split; [reflexivity|cbn [length]; now rewrite Hlen].
Qed.

Lemma slice_window_nonempty {A : Type} (l : list A) (a b : Z) :
  (0 <= a < b)%Z -> (b <= Py.len l)%Z -> Py.slice l a b <> [].
Proof.
  intros Hab Hb. rewrite slice_nonneg by lia.
  apply nonempty_length. rewrite length_firstn, length_skipn.
  unfold Py.len in Hb. lia.
Qed.

(** The estimator on a state that the level loop can leave. *)
Lemma estimate_by_lag_range (fs : Z) (st : loop_state) :
  forallb (fun b => Qeq_bool b 0) (cA st) = false ->
  Py.floor (cD_minlen st) = Z.of_nat (length (cD_sum st)) ->
  (0 < length (cD_sum st) <= length (cA st))%nat ->
  ((1 <= min_ndx fs)%Z ->
   (max_ndx fs <= Z.of_nat (length (cD_sum st)))%Z ->
   exists bpm correl,
     estimate fs st = Ret (Some (bpm, correl))
     /\ bpm <> []
     /\ length correl = (2 * length (cD_sum st) - 1)%nat)
  /\ ((Z.of_nat (length (cD_sum st)) < max_ndx fs)%Z ->
      estimate fs st = no_audio_data).
Proof.
  intros Hnz Hfl Hlen.
  destruct (estimate_to_range_test fs st Hnz Hfl Hlen)
    as (correl & Hc & Htmp & Hest).
  rewrite Hest. cbn zeta.
  set (tmp := Py.slice_from correl _) in *.
  assert (Hl : Py.len tmp = Z.of_nat (length (cD_sum st)))
    by (unfold Py.len; now rewrite Htmp).
  rewrite !Hl.
  split.
  - intros Hmin Hfit.
    pose proof (min_ndx_lt_max_ndx fs Hmin) as Hlt.
    destruct (_ >=? _)%Z eqn:C1; [lia|].
    destruct (_ >? _)%Z eqn:C2; [lia|]. cbn [orb].
    assert (Hne : Py.slice tmp (min_ndx fs) (max_ndx fs) <> []).
    { apply slice_window_nonempty; rewrite ?Hl; lia. }
    destruct (Py.slice tmp (min_ndx fs) (max_ndx fs)) as [|v vs] eqn:Es;
      [contradiction|].
    destruct (peak_detect_nonempty v vs) as (p & Hp & Hpne).
    rewrite Hp. cbn [bind].
    destruct p as [|i p]; [contradiction|]. cbn [length Nat.eqb].
    destruct (map_result_ok (bpm_of_lag fs)
                (map (fun i => (Z.of_nat i + min_ndx fs)%Z) (i :: p)))
      as (bpm & Hbpm & Hbl).
    { intros lag Hin. apply in_map_iff in Hin.
      destruct Hin as (j & <- & _). unfold bpm_of_lag.
      destruct (Z.of_nat j + min_ndx fs =? 0)%Z eqn:C;
        [apply Z.eqb_eq in C; lia|].
      eexists. reflexivity. }
    rewrite Hbpm. cbn [bind]. exists bpm, correl.
    split; [reflexivity|]. split; [|exact Hc].
    intros ->. cbn in Hbl. discriminate Hbl.
  - intros Hshort.
    assert (C2 : (max_ndx fs >? Z.of_nat (length (cD_sum st)))%Z = true)
      by (apply Z.gtb_lt; lia).
    rewrite C2, orb_true_r. reflexivity.
Qed.

(** X1.  Take a non-empty window of [n] samples for which the level loop
    completes ([l0 = floor((n + 7) / 2)] not a multiple of 8, or equal to
    8), and let [m = floor(l0 / 8) + 1] be the length of its composite.
    If [m < max_ndx] the window has no estimate, whatever its samples.
    If [max_ndx <= m], the final approximation is not all zero and the
    sample rate gives [min_ndx >= 1], the window does have an estimate: a
    non-empty array of BPM values, with a correlation of [2 m - 1]
    entries. *)
Theorem window_estimate_by_length (data : list Q) (fs : Z) :
  data <> [] ->
  let l0 := ((length data + 7) / 2)%nat in
  let m := (l0 / 8 + 1)%nat in
  (l0 mod 8 <> 0 \/ l0 = 8)%nat ->
  ((Z.of_nat m < max_ndx fs)%Z -> bpm_detector data fs = no_audio_data)
  /\ (forall st,
        decompose data = Ret st ->
        forallb (fun b => Qeq_bool b 0) (cA st) = false ->
        (1 <= min_ndx fs)%Z ->
        (max_ndx fs <= Z.of_nat m)%Z ->
        exists bpm correl,
          bpm_detector data fs = Ret (Some (bpm, correl))
          /\ bpm <> []
          /\ length correl = (2 * m - 1)%nat).
Proof.
  intros Hd l0 m Hl0.
  destruct (decompose_ok data Hd Hl0) as (st & Hdec & Hsum & Hfl & _ & Hle).
  fold l0 in Hsum, Hfl. fold m in Hsum, Hfl.
  assert (Hfl' : Py.floor (cD_minlen st) = Z.of_nat (length (cD_sum st)))
    by now rewrite Hsum.
  assert (Hlen : (0 < length (cD_sum st) <= length (cA st))%nat)
    by (split; [rewrite Hsum; unfold m; lia|exact Hle]).
  split.
  - intros Hshort. unfold bpm_detector. rewrite Hdec. cbn [bind].
    destruct (forallb (fun b => Qeq_bool b 0) (cA st)) eqn:Hz.
    + apply estimate_silent. now apply all_zero_forallb.
    + apply (estimate_by_lag_range fs st Hz Hfl' Hlen). now rewrite Hsum.
  - intros st' Hdec' Hnz Hmin Hfit.
    rewrite Hdec in Hdec'. injection Hdec' as <-.
    destruct (proj1 (estimate_by_lag_range fs st Hnz Hfl' Hlen) Hmin)
      as (bpm & correl & He & Hne & Hc); [now rewrite Hsum|].
    exists bpm, correl. unfold bpm_detector. rewrite Hdec. cbn [bind].
    rewrite Hsum in Hc. auto.
Qed.

Lemma window_estimate_by_length_witness :
  bpm_detector (ramp 30) 30 = no_audio_data
  /\ exists bpm correl,
       bpm_detector (ramp 60) 30 = Ret (Some (bpm, correl))
       /\ bpm <> [] /\ length correl = 9%nat.
Proof.
  split.
  - apply (proj1 (window_estimate_by_length (ramp 30) 30
                    ltac:(discriminate) ltac:(left; vm_compute; lia))).
    vm_compute. reflexivity.
  - eapply (proj2 (window_estimate_by_length (ramp 60) 30
                     ltac:(discriminate) ltac:(left; vm_compute; lia))).
    + vm_compute. reflexivity.
    + vm_compute. reflexivity.
    + vm_compute. discriminate.
    + vm_compute. discriminate.
Defined.

(** ** Which exceptions can leave the detectors *)

Ltac bind_raise H :=
  match type of H with
  | bind ?c _ = Raise _ =>
      let E := fresh "E" in
      destruct c eqn:E; cbn [bind] in H
  end.

Lemma dwt_raise (w : Pywt.wavelet) (x : list Q) (e : pyerr) :
  Pywt.dwt w x = Raise e -> e = ValueError.
Proof. unfold Pywt.dwt. destruct x; intros H; congruence. Qed.

Lemma dwt_ret_length (x a d : list Q) :
  Pywt.dwt Pywt.db4 x = Ret (a, d) ->
  x <> [] /\ length a = ((length x + 7) / 2)%nat
  /\ length d = ((length x + 7) / 2)%nat.
Proof.
  intros H. assert (Hx : x <> []) by (intros ->; discriminate H).
  destruct (dwt_db4_ok x Hx) as (a' & d' & H' & Ha & Hd).
  rewrite H' in H. injection H as <- <-. auto.
Qed.

Lemma add_raise (a b : list Q) (e : pyerr) :
  Np.add a b = Raise e -> e = ValueError.
Proof.
  unfold Np.add. destruct (Nat.eqb _ _); [discriminate|].
  destruct a as [|x [|x' a]]; destruct b as [|y [|y' b]];
    intros H; congruence.
Qed.

Lemma level_step_raise (data : list Q) (st : loop_state) (loop : nat)
      (e : pyerr) :
  level_step data st loop = Raise e -> e = ValueError.
Proof.
  unfold level_step. intros H.
  set (x := if Nat.eqb loop 0 then data else cA st) in H.
  bind_raise H; [|apply dwt_raise in E; congruence].
  destruct a as [a d]. apply dwt_ret_length in E.
  destruct E as (Hx & Ha & Hd).
  rewrite smooth_eq in H. cbn [bind] in H.
  destruct (envelope_length loop
              (map (fun v => Qred ((Qred (0.01 * v + 0) - 0) / (1 - 0.99))) d))
    as (env & Henv & _).
  { apply nonempty_length. rewrite length_map, Hd.
    destruct x; [easy|cbn [length]; lia]. }
  rewrite Henv in H. cbn [bind] in H.
  bind_raise H; [discriminate H|].
  apply add_raise in E. congruence.
Qed.

Lemma run_levels_raise (data : list Q) (loops : list nat) (st : loop_state)
      (e : pyerr) :
  run_levels data st loops = Raise e -> e = ValueError.
Proof.
  revert st. induction loops as [|loop loops IH]; intros st H;
    cbn [run_levels] in H; [discriminate H|].
  bind_raise H; [now apply (IH a)|].
  apply level_step_raise in E. congruence.
Qed.

Lemma peak_detect_raise (d : list Q) (e : pyerr) :
  peak_detect d = Raise e -> e = ValueError.
Proof.
  unfold peak_detect. intros H. bind_raise H.
  - destruct (Nat.eqb _ 0); discriminate H.
  - destruct d; cbn in E; congruence.
Qed.

Lemma correlate_raise (a : list Q) (e : pyerr) :
  Np.correlate a a = Raise e -> e = ValueError.
Proof. unfold Np.correlate. destruct a; intros H; congruence. Qed.

Lemma map_bpm_of_lag_raise (fs : Z) (lags : list Z) (e : pyerr) :
  (forall lag, In lag lags -> lag <> 0%Z) ->
  map_result (bpm_of_lag fs) lags = Raise e -> False.
Proof.
  induction lags as [|lag lags IH]; intros Hall H; cbn [map_result] in H;
    [discriminate H|].
  bind_raise H.
  - bind_raise H; [discriminate H|].
    apply (IH (fun l Hl => Hall l (or_intror Hl))). congruence.
  - unfold bpm_of_lag in E.
    destruct (lag =? 0)%Z eqn:C; [|discriminate E].
    apply Z.eqb_eq in C. now apply (Hall lag (or_introl eq_refl)).
Qed.

Lemma estimate_raise (fs : Z) (st : loop_state) (e : pyerr) :
  (1 <= min_ndx fs)%Z ->
  estimate fs st = Raise e -> e = ValueError.
Proof.
  intros Hmin. unfold estimate, no_audio_data. intros H.
  destruct (forallb _ (cA st)) eqn:Hnz; [discriminate H|].
  rewrite smooth_eq in H. cbn [bind] in H.
  destruct (mean_spec
              (Np.abs (map (fun v => Qred ((Qred (0.01 * v + 0) - 0)
                                           / (1 - 0.99))) (cA st))))
    as (m & Hm & _).
  { apply nonempty_length. rewrite abs_length, length_map.
    apply not_all_zero_nonempty in Hnz. destruct (cA st); [easy|cbn; lia]. }
  rewrite Hm in H. cbn [bind] in H.
  bind_raise H; [|apply add_raise in E; congruence].
  bind_raise H; [|apply correlate_raise in E0; congruence].
  match type of H with
  | (if ?c then _ else _) = _ => destruct c; [discriminate H|]
  end.
  bind_raise H; [|apply peak_detect_raise in E1; congruence].
  destruct (Nat.eqb (length a1) 0); [discriminate H|].
  bind_raise H; [discriminate H|].
  exfalso. eapply map_bpm_of_lag_raise; [|exact E2].
  intros lag Hin. apply in_map_iff in Hin. destruct Hin as (j & <- & _). lia.
Qed.

Lemma bpm_detector_raise (data : list Q) (fs : Z) (e : pyerr) :
  (1 <= min_ndx fs)%Z ->
  bpm_detector data fs = Raise e -> e = ValueError.
Proof.
  intros Hmin. unfold bpm_detector. intros H. bind_raise H.
  - now apply (estimate_raise fs a).
  - unfold decompose in E. apply run_levels_raise in E. congruence.
Qed.

Lemma collect_bpms_raise (fs : Z) (ws : list (list Q)) (acc : list (list Q))
      (e : pyerr) :
  (1 <= min_ndx fs)%Z ->
  collect_bpms fs ws acc = Raise e -> e = ValueError.
Proof.
  intros Hmin. revert acc.
  induction ws as [|d ws IH]; intros acc H; cbn [collect_bpms] in H;
    [discriminate H|].
  bind_raise H.
  - destruct a as [[bpm correl]|]; eapply IH; exact H.
  - apply bpm_detector_raise in E; [congruence|exact Hmin].
Qed.

Lemma median_raise (rows : list (list Q)) (e : pyerr) :
  Forall (fun row => row <> []) rows -> rows <> [] ->
  Np.median rows = Raise e -> e = ValueError.
Proof.
  intros Hrows Hne. unfold Np.median.
  destruct (Np.same_length rows); [|congruence].
  destruct rows as [|row rows]; [contradiction|].
  inversion Hrows as [|? ? Hrow _]; subst.
  destruct row as [|v row]; [contradiction|]. cbn [concat app]. discriminate.
Qed.

Lemma analyze_windows_raise (samps : list Q) (fs : Z) (w : Q) (e : pyerr) :
  (1 <= min_ndx fs)%Z ->
  analyze_windows samps fs w = Raise e ->
  e = ValueError \/ e = ZeroDivisionError.
Proof.
  intros Hmin. unfold analyze_windows. intros H.
  bind_raise H.
  - bind_raise H.
    + left. unfold aggregate in H. destruct a0 as [|row rows] eqn:Ea;
        [discriminate H|].
      bind_raise H; [discriminate H|].
      apply median_raise in E1; [congruence| |discriminate].
      eapply collect_bpms_nonempty; [constructor|exact E0].
    + left. apply collect_bpms_raise in E0; [congruence|exact Hmin].
  - right. unfold max_window_ndx in E.
    destruct (_ =? 0)%Z; congruence.
Qed.

Lemma min_ndx_30 (fs : Z) : (30 <= fs)%Z -> (1 <= min_ndx fs)%Z.
Proof.
  intros H. unfold min_ndx, Py.floor.
  change 1%Z with (Qfloor 1). apply Qfloor_resp_le.
  unfold decimated_rate. change (inject_Z max_decimation) with (inject_Z 8).
  assert (E : 60.0 / 220 * (inject_Z fs / inject_Z 8)
              == (3 # 88) * inject_Z fs) by field.
  rewrite E.
  assert (inject_Z 30 <= inject_Z fs) by now rewrite <- Zle_Qle.
  change (inject_Z 30) with 30 in *. lra.
Qed.

(** X2.  At a sample rate of 30 Hz or more the detectors raise nothing
    but numpy's ValueError and Python's ZeroDivisionError, and no
    computation leaves the finite numbers (no division by a zero lag, no
    mean or median of an empty array): every outcome of [bpm_detector],
    [detect_file_bpm] and [detect_segment_bpm] is a return, a ValueError
    or (for the two callers) a ZeroDivisionError. *)
Theorem detectors_raise_only_caught_errors (fs : Z) :
  (30 <= fs)%Z ->
  (forall data e, bpm_detector data fs = Raise e -> e = ValueError)
  /\ (forall audio window_size e,
         detect_file_bpm (Some (audio, fs)) window_size = Raise e ->
         e = ValueError \/ e = ZeroDivisionError)
  /\ (forall audio_data start_time end_time window_size e,
         detect_segment_bpm audio_data fs start_time end_time window_size
         = Raise e ->
         e = ValueError \/ e = ZeroDivisionError).
Proof.
  intros Hfs. pose proof (min_ndx_30 fs Hfs) as Hmin.
  split; [|split].
  - intros data e. now apply bpm_detector_raise.
  - intros audio w e H. cbn [detect_file_bpm] in H.
    eapply analyze_windows_raise; eassumption.
  - intros audio s t w e H. unfold detect_segment_bpm in H.
    destruct (segment_bounds fs s t) as [a b].
    destruct (invalid_range _ a b); [discriminate H|].
    eapply analyze_windows_raise; eassumption.
Qed.

Lemma detectors_raise_only_caught_errors_witness :
  exists e, bpm_detector (ramp 25) 44100 = Raise e /\ e = ValueError.
Proof.
  eexists.
  match goal with
  | |- ?E /\ _ => assert (H : E) by (vm_compute; reflexivity)
  end.
  split; [exact H|].
  exact (proj1 (detectors_raise_only_caught_errors
                  44100 ltac:(vm_compute; discriminate)) _ _ H).
Defined.

(** ** Audio shorter than the lag range *)

Lemma collect_bpms_all_none (fs : Z) (ws : list (list Q))
      (acc : list (list Q)) :
  (forall d, In d ws -> bpm_detector d fs = Ret None) ->
  collect_bpms fs ws acc = Ret acc.
Proof.
  induction ws as [|d ws IH]; intros H; cbn [collect_bpms]; [reflexivity|].
  rewrite (H d (or_introl eq_refl)). cbn [bind].
  apply IH. intros d' Hd'. apply H. now right.
Qed.

Lemma short_window_no_estimate (data : list Q) (fs : Z) :
  data <> [] ->
  let l0 := ((length data + 7) / 2)%nat in
  (l0 mod 8 <> 0 \/ l0 = 8)%nat ->
  (Z.of_nat (l0 / 8 + 1) < max_ndx fs)%Z ->
  bpm_detector data fs = Ret None.
Proof.
  intros Hd l0 Hl0 Hshort.
  destruct (decompose_ok data Hd Hl0) as (st & Hdec & Hsum & Hfl & _ & Hle).
  fold l0 in Hsum, Hfl.
  unfold bpm_detector. rewrite Hdec. cbn [bind].
  destruct (forallb (fun b => Qeq_bool b 0) (cA st)) eqn:Hz.
  - apply estimate_silent. now apply all_zero_forallb.
  - apply (estimate_by_lag_range fs st Hz); rewrite ?Hsum; lia.
Qed.

(** X3.  When the window length in samples [w] (the smaller of
    [int(window_size * fs)] and the number of samples) gives a composite
    of fewer than [max_ndx] entries, no window of the file has an
    estimate and [detect_file_bpm] returns [None], whatever the samples
    are.  At 44100 Hz, where [max_ndx] is 8268, a two-second window has a
    composite of 5513 entries. *)
Theorem file_with_short_windows_is_undetected
        (samps : list Q) (fs : Z) (window_size : Q) :
  samps <> [] ->
  (1 <= Py.int (window_size * inject_Z fs))%Z ->
  let w := window_samps (Py.len samps) window_size fs in
  let l0 := ((Z.to_nat w + 7) / 2)%nat in
  (l0 mod 8 <> 0 \/ l0 = 8)%nat ->
  (Z.of_nat (l0 / 8 + 1) < max_ndx fs)%Z ->
  detect_file_bpm (Some (samps, fs)) window_size = Ret None.
Proof.
  intros Hne Hi w l0 Hl0 Hshort.
  destruct (windows_regular samps fs window_size Hne Hi)
    as (Hw & Hmax & Hlen & Hnth & _).
  fold w in Hw, Hmax, Hlen, Hnth.
  cbn [detect_file_bpm]. unfold analyze_windows. fold w.
  rewrite Hmax. cbn [bind].
  rewrite collect_bpms_all_none; [reflexivity|].
  intros d Hd. destruct (In_nth _ _ [] Hd) as (i & Hi' & <-).
  rewrite Hlen in Hi'. destruct (Hnth i Hi') as [_ Hdl].
  assert (Hwpos : (1 <= w)%Z).
  { rewrite Hw. unfold Py.len. destruct samps; [easy|cbn [length]; lia]. }
  apply short_window_no_estimate; rewrite ?Hdl; try assumption.
  apply nonempty_length. rewrite Hdl. lia.
Qed.

Lemma file_with_short_windows_is_undetected_witness :
  detect_file_bpm (Some (ramp 30, 30%Z)) 3 = Ret None.
Proof.
  apply (file_with_short_windows_is_undetected (ramp 30) 30 3).
  - discriminate.
  - vm_compute. discriminate.
  - left. vm_compute. lia.
  - vm_compute. reflexivity.
Defined.

(** The lag range at 44100 Hz needs a composite of 8268 entries: a
    two-second window has 5513. *)
Lemma two_second_window_44100 :
  max_ndx 44100 = 8268%Z
  /\ (((88200 + 7) / 2) / 8 + 1 = 5513)%Z
  /\ (((132300 + 7) / 2) / 8 + 1 = 8270)%Z.
Proof. repeat split. Qed.

(** ** Segments inside the audio *)

(** X4.  For a segment whose sample bounds satisfy
    [0 <= start_sample < end_sample <= len(audio_data)], the result of
    [detect_segment_bpm] is the result of [detect_file_bpm] on the
    [end_sample - start_sample] samples from [start_sample] on: nothing
    outside the segment influences it. *)
Theorem segment_is_analysed_as_its_samples
        (audio_data : list Q) (fs : Z)
        (start_time end_time window_size : Q) :
  let a := Py.int (start_time * inject_Z fs) in
  let b := Py.int (end_time * inject_Z fs) in
  (0 <= a < b)%Z -> (b <= Py.len audio_data)%Z ->
  let segment_data :=
    firstn (Z.to_nat (b - a)) (skipn (Z.to_nat a) audio_data) in
  length segment_data = Z.to_nat (b - a)
  /\ detect_segment_bpm audio_data fs start_time end_time window_size
     = detect_file_bpm (Some (segment_data, fs)) window_size.
Proof.
  intros a b Hab Hb segment_data. split.
  - unfold segment_data. rewrite length_firstn, length_skipn.
    unfold Py.len in Hb. lia.
  - unfold detect_segment_bpm, segment_bounds. fold a b.
    unfold invalid_range.
    destruct (a >=? Py.len audio_data)%Z eqn:C1; [lia|].
    destruct (b >? Py.len audio_data)%Z eqn:C2; [lia|].
    destruct (a >=? b)%Z eqn:C3; [lia|]. cbn [orb].
    rewrite slice_nonneg by lia. reflexivity.
Qed.

Lemma segment_is_analysed_as_its_samples_witness :
  detect_segment_bpm (ramp 120) 30 1 3 3
  = detect_file_bpm (Some (firstn 60 (skipn 30 (ramp 120)), 30%Z)) 3.
Proof.
  apply (segment_is_analysed_as_its_samples (ramp 120) 30 1 3 3);
    vm_compute; [split; [discriminate|reflexivity]|discriminate].
Defined.

(** ** The report of a segmented file *)

Lemma segment_loop_spec (audio : list Q) (fs : Z) (w : Q)
      (segs : list segment) (i : nat) (acc rs : list segment_result) :
  segment_loop audio fs w i segs acc = Ret rs ->
  exists rs',
    rs = acc ++ rs'
    /\ length rs' = length segs
    /\ forall k s, nth_error segs k = Some s ->
         exists r,
           nth_error rs' k = Some r
           /\ segment_index r = (i + k)%nat
           /\ sr_start_time r = seg_start_time s
           /\ sr_end_time r = seg_end_time s
           /\ sr_duration r = seg_end_time s - seg_start_time s
           /\ detect_segment_bpm audio fs (seg_start_time s)
                                 (seg_end_time s) w = Ret (sr_bpm r).
Proof.
  revert i acc rs.
  induction segs as [|s segs IH]; intros i acc rs H; cbn [segment_loop] in H.
  - injection H as <-. exists []. rewrite app_nil_r.
    repeat split. intros [|k] s H; discriminate H.
  - bind_inv H. destruct (IH _ _ _ H) as (rs' & -> & Hlen & Hnth).
    eexists (_ :: rs'). rewrite <- app_assoc. cbn [app].
    split; [reflexivity|]. split; [cbn [length]; now rewrite Hlen|].
    intros [|k] s' Hs'; cbn [nth_error] in *.
    + injection Hs' as <-. eexists. split; [reflexivity|].
      cbn. rewrite Nat.add_0_r. repeat split. exact E.
    + destruct (Hnth k s' Hs') as (r & Hr & Hidx & Hrest).
      exists r. split; [exact Hr|]. split; [lia|exact Hrest].
Qed.

(** X5.  A report returned for a decoded audio and a list of segments has
    one record per segment, in the order of the segment file, whether or
    not the segment got a BPM: record [k] carries the index [k], the two
    bounds of segment [k], their difference as duration, and exactly what
    [detect_segment_bpm] returns for these bounds ([None] for a rejected
    or undetected segment); [total_segments] is the number of segments. *)
Theorem segment_report_has_one_record_per_segment
        (name : string) (audio : list Q) (fs : Z)
        (segs : list segment) (window_size : Q) (rep : segment_report) :
  process_audio_with_segments name (Some (audio, fs)) (Some segs) window_size
  = Ret (Some rep) ->
  report_audio_file rep = name
  /\ total_segments rep = length segs
  /\ length (report_segments rep) = length segs
  /\ forall k s, nth_error segs k = Some s ->
       exists r,
         nth_error (report_segments rep) k = Some r
         /\ segment_index r = k
         /\ sr_start_time r = seg_start_time s
         /\ sr_end_time r = seg_end_time s
         /\ sr_duration r = seg_end_time s - seg_start_time s
         /\ detect_segment_bpm audio fs (seg_start_time s)
                               (seg_end_time s) window_size
            = Ret (sr_bpm r).
Proof.
  cbn [process_audio_with_segments]. intros H. bind_inv H.
  injection H as <-. cbn [report_audio_file total_segments report_segments].
  destruct (segment_loop_spec _ _ _ _ _ _ _ E) as (rs' & -> & Hlen & Hnth).
  cbn [app]. repeat split; try assumption.
Qed.

Lemma segment_report_has_one_record_per_segment_witness :
  exists rep,
    process_audio_with_segments
      "a.wav" (Some (ramp 120, 30%Z))
      (Some [ {| seg_start_time := 0; seg_end_time := 2 |};
              {| seg_start_time := 5; seg_end_time := 3 |} ]) 3
    = Ret (Some rep)
    /\ total_segments rep = 2%nat
    /\ length (report_segments rep) = 2%nat.
Proof.
  eexists.
  match goal with
  | |- ?E /\ _ => assert (H : E) by (vm_compute; reflexivity)
  end.
  split; [exact H|].
  destruct (segment_report_has_one_record_per_segment _ _ _ _ _ _ H)
    as (_ & Ht & Hl & _).
  split; [exact Ht|exact Hl].
Defined.

Lemma segment_loop_raise (audio : list Q) (fs : Z) (w : Q)
      (pre : list segment) (s : segment) (post : list segment)
      (i : nat) (acc : list segment_result) (e : pyerr) :
  (forall s', In s' pre ->
     exists r, detect_segment_bpm audio fs (seg_start_time s')
                                  (seg_end_time s') w = Ret r) ->
  detect_segment_bpm audio fs (seg_start_time s) (seg_end_time s) w
  = Raise e ->
  segment_loop audio fs w i (pre ++ s :: post) acc = Raise e.
Proof.
  revert i acc. induction pre as [|p pre IH]; intros i acc Hpre Hs;
    cbn [app segment_loop].
  - now rewrite Hs.
  - destruct (Hpre p (or_introl eq_refl)) as (r & Hr). rewrite Hr.
    cbn [bind]. apply IH; [|exact Hs].
    intros s' Hin. apply Hpre. now right.
Qed.

Lemma segment_loop_ok (audio : list Q) (fs : Z) (w : Q)
      (segs : list segment) (i : nat) (acc : list segment_result) :
  (forall s, In s segs ->
     exists r, detect_segment_bpm audio fs (seg_start_time s)
                                  (seg_end_time s) w = Ret r) ->
  exists rs, segment_loop audio fs w i segs acc = Ret rs.
Proof.
  revert i acc. induction segs as [|s segs IH]; intros i acc H;
    cbn [segment_loop].
  - eexists. reflexivity.
  - destruct (H s (or_introl eq_refl)) as (r & Hr). rewrite Hr. cbn [bind].
    apply IH. intros s' Hin. apply H. now right.
Qed.

(** X6.  One raising segment loses the whole report: when the analysis of
    a segment raises after all earlier segments returned,
    [process_audio_with_segments] raises that exception and returns no
    record, not even for the earlier segments; it returns a report exactly
    when no segment raises. *)
Theorem raising_segment_aborts_the_report
        (name : string) (audio : list Q) (fs : Z) (window_size : Q) :
  (forall pre s post e,
      (forall s', In s' pre ->
         exists r, detect_segment_bpm audio fs (seg_start_time s')
                                      (seg_end_time s') window_size
                   = Ret r) ->
      detect_segment_bpm audio fs (seg_start_time s) (seg_end_time s)
                         window_size = Raise e ->
      process_audio_with_segments name (Some (audio, fs))
                                  (Some (pre ++ s :: post)) window_size
      = Raise e)
  /\ (forall segs,
        (forall s, In s segs ->
           exists r, detect_segment_bpm audio fs (seg_start_time s)
                                        (seg_end_time s) window_size
                     = Ret r) ->
        exists rep,
          process_audio_with_segments name (Some (audio, fs)) (Some segs)
                                      window_size = Ret (Some rep)).
Proof.
  split.
  - intros pre s post e Hpre Hs. cbn [process_audio_with_segments].
    now rewrite (segment_loop_raise _ _ _ pre s post 0 [] e Hpre Hs).
  - intros segs H. cbn [process_audio_with_segments].
    destruct (segment_loop_ok audio fs window_size segs 0 [] H) as (rs & ->).
    cbn [bind]. eexists. reflexivity.
Qed.

Lemma raising_segment_aborts_the_report_witness :
  process_audio_with_segments
    "a.wav" (Some (ramp 120, 30%Z))
    (Some ([ {| seg_start_time := 0; seg_end_time := 2 |} ]
           ++ {| seg_start_time := 0; seg_end_time := 25 # 30 |} :: [])) 3
  = Raise ValueError.
Proof.
  apply (proj1 (raising_segment_aborts_the_report "a.wav" (ramp 120) 30 3)).
  - intros s' [<-|[]]. eexists. vm_compute. reflexivity.
  - vm_compute. reflexivity.
Defined.

(** ** The folder drivers *)

Lemma audio_folder_loop_spec
      (read : string -> option (list Q * Z)) (w : Q)
      (listing : list string) (results : list bpm_result) (c : counters)
      (results' : list bpm_result) (c' : counters) :
  audio_folder_loop read w listing results c = Ret (results', c') ->
  results' = results ++ flat_map (BatchSpec.contribution read w) listing
  /\ processed c' = (processed c
                     + length (flat_map (BatchSpec.contribution read w)
                                        listing))%nat
  /\ (processed c' + errors c'
      = processed c + errors c + length (filter is_supported listing))%nat.
Proof.
  revert results c.
  induction listing as [|f listing IH]; intros results c H;
    cbn [audio_folder_loop] in H.
  - injection H as <- <-. cbn [flat_map filter length].
    rewrite app_nil_r. repeat split; lia.
  - cbn [flat_map filter]. unfold BatchSpec.contribution at 1 3.
    destruct (is_supported f).
    + bind_inv H. unfold try_except in E.
      destruct (detect_file_bpm (read f) w) as [[bpm|]|[]] eqn:D;
        try discriminate E; injection E as <-;
        apply IH in H; destruct H as (-> & Hp & Hs);
        cbn [processed errors] in *;
        rewrite ?length_app; cbn [length app];
        (split; [now rewrite <- ?app_assoc|split; lia]).
    + apply IH in H. destruct H as (-> & Hp & Hs). cbn [app length].
      repeat split; lia.
Qed.

(** X7.  When [process_audio_folder] returns, [results] holds, in the
    order of the directory listing, exactly one entry for every listed
    file that has a supported extension and for which [detect_file_bpm]
    returns a number, with that number; [processed] is the number of
    entries, and [processed + errors] is the number of listed files with a
    supported extension: a file that is undetected, unreadable or makes the
    detector raise is counted once, as an error. *)
Theorem audio_folder_results_and_counters
        (read : string -> option (list Q * Z)) (window_size : Q)
        (listing : list string)
        (results : list bpm_result) (c : counters) :
  process_audio_folder read window_size listing = Ret (results, c) ->
  results = flat_map (BatchSpec.contribution read window_size) listing
  /\ processed c = length results
  /\ (processed c + errors c = length (filter is_supported listing))%nat.
Proof.
  unfold process_audio_folder. intros H.
  apply audio_folder_loop_spec in H. cbn [processed errors app] in H.
  destruct H as (-> & Hp & Hs). repeat split; lia.
Qed.

Lemma audio_folder_results_and_counters_witness :
  exists results c,
    process_audio_folder
      (fun name => if String.eqb name "a.wav" then Some (ramp 60, 30%Z)
                   else None)
      3 ["a.wav"; "b.WAV"; "notes.txt"]%string = Ret (results, c)
    /\ processed c = length results
    /\ (processed c + errors c = 2)%nat.
Proof.
  do 2 eexists.
  match goal with
  | |- ?E /\ _ => assert (H : E) by (vm_compute; reflexivity)
  end.
  split; [exact H|].
  destruct (audio_folder_results_and_counters _ _ _ _ _ H) as (_ & Hp & Hs).
  split; [exact Hp|exact Hs].
Defined.






(** ** The segment folder *)

Lemma segment_loop_raise_kind (audio : list Q) (fs : Z) (w : Q)
      (segs : list segment) (i : nat) (acc : list segment_result)
      (e : pyerr) :
  (30 <= fs)%Z ->
  segment_loop audio fs w i segs acc = Raise e ->
  e = ValueError \/ e = ZeroDivisionError.
Proof.
  intros Hfs. revert i acc.
  induction segs as [|s segs IH]; intros i acc H; cbn [segment_loop] in H;
    [discriminate H|].
  bind_raise H; [now apply IH in H|].
  unfold detect_segment_bpm in E.
  destruct (segment_bounds fs _ _) as [a b].
  destruct (invalid_range _ a b); [discriminate E|].
  apply analyze_windows_raise in E; [congruence|now apply min_ndx_30].
Qed.

Lemma process_audio_with_segments_caught
      (name : string) (audio : option (list Q * Z))
      (segment_data : option (list segment)) (w : Q) :
  (forall a fs, audio = Some (a, fs) -> (30 <= fs)%Z) ->
  exists r,
    try_except (process_audio_with_segments name audio segment_data w)
    = Ret r
    /\ (r = None <->
        exists e, process_audio_with_segments name audio segment_data w
                  = Raise e).
Proof.
  intros Hfs. unfold process_audio_with_segments.
  destruct segment_data as [segs|].
  2: { eexists. split; [reflexivity|].
       split; [discriminate|intros (e & C); discriminate C]. }
  destruct audio as [[a fs]|].
  2: { eexists. split; [reflexivity|].
       split; [discriminate|intros (e & C); discriminate C]. }
  specialize (Hfs a fs eq_refl).
  destruct (segment_loop a fs w 0 segs []) as [rs|e] eqn:E; cbn [bind].
  - eexists. split; [reflexivity|].
    split; [discriminate|intros (e & C); discriminate C].
  - apply segment_loop_raise_kind in E; [|exact Hfs].
    destruct E as [-> | ->]; eexists; (split; [reflexivity|]);
      (split; [intros _; eexists; reflexivity|reflexivity]).
Qed.

Lemma segment_folder_loop_spec
      (exists_ : string -> bool) (read : string -> option (list Q * Z))
      (load : string -> option (list segment)) (w : Q)
      (listing : list string) (c : counters) :
  (forall f a fs, read f = Some (a, fs) -> (30 <= fs)%Z) ->
  exists c',
    segment_folder_loop exists_ read load w listing c = Ret c'
    /\ processed c'
       = (processed c
          + length (filter (BatchSpec.counts_as_processed
                              exists_ read load w) listing))%nat
    /\ (processed c' + errors c'
        = processed c + errors c
          + length (filter is_segment_file listing))%nat.
Proof.
  intros Hfs. revert c.
  induction listing as [|f listing IH]; intros c;
    cbn [segment_folder_loop filter].
  - exists c. cbn [length]. repeat split; lia.
  - unfold BatchSpec.counts_as_processed at 1.
    destruct (is_segment_file f); cbn [andb]; [|apply IH].
    destruct (find_audio_file exists_ (audio_base_name f) supported_formats)
      as [audio_file|].
    + destruct (process_audio_with_segments_caught
                  audio_file (read audio_file) (load f) w (Hfs audio_file))
        as (r & Hr & Hiff).
      rewrite Hr. cbn [bind].
      destruct (process_audio_with_segments audio_file (read audio_file)
                                            (load f) w) as [rep|e] eqn:P.
      * destruct r as [r|]; [|exfalso; destruct (proj1 Hiff eq_refl);
                               discriminate].
        destruct (IH {| processed := S (processed c); errors := errors c |})
          as (c' & -> & Hp & Hs).
        exists c'. cbn [processed errors length] in *.
        repeat split; lia.
      * destruct r as [r|].
        { exfalso. assert (C : Some r = None) by (apply Hiff; eauto).
          discriminate C. }
        destruct (IH {| processed := processed c; errors := S (errors c) |})
          as (c' & -> & Hp & Hs).
        exists c'. cbn [processed errors length] in *.
        repeat split; lia.
    + destruct (IH {| processed := processed c; errors := S (errors c) |})
        as (c' & -> & Hp & Hs).
      exists c'. cbn [processed errors length] in *.
      repeat split; lia.
Qed.

(** X9.  When every decodable audio file has a sample rate of at least
    30 Hz, [process_segment_folder] always returns, and its two counters
    add up to the number of listed names that end, in any letter case,
    with [_segments.json].  [processed] counts the segment files for which
    an audio file is found and [process_audio_with_segments] returns,
    including the returns without a report (undecodable audio, missing
    segment data); [errors] counts the others: no audio file found, or an
    exception raised by the analysis of a segment. *)
Theorem segment_folder_counters
        (exists_ : string -> bool) (read : string -> option (list Q * Z))
        (load : string -> option (list segment)) (window_size : Q)
        (listing : list string) :
  (forall f a fs, read f = Some (a, fs) -> (30 <= fs)%Z) ->
  exists c,
    process_segment_folder exists_ read load window_size listing = Ret c
    /\ processed c
       = length (filter (BatchSpec.counts_as_processed
                           exists_ read load window_size) listing)
    /\ (processed c + errors c
        = length (filter is_segment_file listing))%nat.
Proof.
  intros Hfs. unfold process_segment_folder.
  destruct (segment_folder_loop_spec
              exists_ read load window_size listing
              {| processed := 0; errors := 0 |} Hfs) as (c & H & Hp & Hs).
  exists c. cbn [processed errors] in *. repeat split; [exact H|lia|lia].
Qed.

Lemma segment_folder_counters_witness :
  exists c,
    process_segment_folder
      (fun name => String.eqb name "song.wav")
      (fun _ => None) (fun _ => None) 3
      ["song_segments.json"; "other_SEGMENTS.JSON"; "readme.txt"]%string
    = Ret c
    /\ processed c = 1%nat /\ errors c = 1%nat.
Proof.
  destruct (segment_folder_counters
              (fun name => String.eqb name "song.wav")
              (fun _ => None) (fun _ => None) 3
              ["song_segments.json"; "other_SEGMENTS.JSON"; "readme.txt"]%string)
    as (c & H & Hp & Hs); [discriminate|].
  exists c. split; [exact H|].
  match type of Hp with
  | _ = ?r => let v := eval vm_compute in r in change r with v in Hp
  end.
  match type of Hs with
  | _ = ?r => let v := eval vm_compute in r in change r with v in Hs
  end.
  split; [exact Hp|lia].
Defined.

(** ** Further properties of the detectors *)

(** X14.  For every non-empty window whose level-0 detail length
    [l0 = floor((n + 7) / 2)] is not a multiple of 8 (or is 8), the level
    loop completes without an exception: the composite has exactly
    [floor(l0 / 8) + 1] entries, which is also [floor(cD_minlen)], and the
    final approximation, with [floor((floor((floor((l0 + 7) / 2) + 7) / 2)
    + 7) / 2)] entries, is at least as long. *)
Theorem level_loop_completes (data : list Q) :
  data <> [] ->
  let l0 := ((length data + 7) / 2)%nat in
  (l0 mod 8 <> 0 \/ l0 = 8)%nat ->
  exists st, decompose data = Ret st
             /\ length (cD_sum st) = (l0 / 8 + 1)%nat
             /\ Py.floor (cD_minlen st) = Z.of_nat (l0 / 8 + 1)
             /\ length (cA st) = ((((l0 + 7) / 2 + 7) / 2 + 7) / 2)%nat
             /\ (length (cD_sum st) <= length (cA st))%nat.
Proof. exact (decompose_ok data). Qed.

Lemma level_loop_completes_witness :
  exists st, decompose (ramp 60) = Ret st
             /\ length (cD_sum st) = 5%nat
             /\ Py.floor (cD_minlen st) = 5%Z
             /\ length (cA st) = 10%nat
             /\ (length (cD_sum st) <= length (cA st))%nat.
Proof.
  apply (level_loop_completes (ramp 60)); [discriminate|].
  left. vm_compute. lia.
Defined.

Lemma firstn_plus {A : Type} (a b : nat) (l : list A) :
  firstn (a + b) l = firstn a l ++ firstn b (skipn a l).
Proof.
  revert l. induction a as [|a IH]; intros l; [reflexivity|].
  destruct l as [|x l]; cbn [Nat.add firstn skipn app].
  - now rewrite firstn_nil.
  - now rewrite IH.
Qed.

Lemma concat_chunks {A : Type} (w k : nat) (l : list A) :
  concat (map (fun i => firstn w (skipn (i * w) l)) (seq 0 k))
  = firstn (k * w) l.
Proof.
  induction k as [|k IH]; [reflexivity|].
  rewrite seq_S, map_app, concat_app, IH. cbn [map concat Nat.add].
  rewrite app_nil_r. replace (S k * w)%nat with (k * w + w)%nat by lia.
  now rewrite firstn_plus.
Qed.

(** X15.  For a non-empty sample sequence and a window of at least one
    sample, with [w] the window length in samples (the smaller of
    [int(window_size * fs)] and the number of samples): the loop visits
    [floor(nsamps / w)] windows; window [i] holds the [w] samples from
    offset [i w] on; laid end to end the windows are the first
    [w floor(nsamps / w)] samples, so they do not overlap and only the
    last [nsamps mod w] samples, fewer than [w], are left out; a sequence
    shorter than [int(window_size * fs)] is one window, the whole
    sequence. *)
Theorem windows_partition_a_prefix
        (samps : list Q) (fs : Z) (window_size : Q) :
  samps <> [] ->
  (1 <= Py.int (window_size * inject_Z fs))%Z ->
  let nsamps := Py.len samps in
  let w := window_samps nsamps window_size fs in
  let ws := windows samps w (nsamps / w) in
  max_window_ndx nsamps w = Ret (nsamps / w)%Z
  /\ length ws = Z.to_nat (nsamps / w)
  /\ (forall i, (i < length ws)%nat ->
        nth i ws [] = firstn (Z.to_nat w) (skipn (i * Z.to_nat w) samps)
        /\ length (nth i ws []) = Z.to_nat w)
  /\ concat ws = firstn (Z.to_nat (w * (nsamps / w))) samps
  /\ length (skipn (Z.to_nat (w * (nsamps / w))) samps)
     = Z.to_nat (nsamps mod w)
  /\ (nsamps mod w < w)%Z
  /\ ((nsamps < Py.int (window_size * inject_Z fs))%Z -> ws = [samps]).
Proof.
  intros Hne Hi nsamps w ws.
  destruct (windows_regular samps fs window_size Hne Hi)
    as (Hw & Hmax & Hlen & Hnth & Hshort).
  fold nsamps in Hw, Hmax, Hlen, Hnth, Hshort.
  fold w in Hw, Hmax, Hlen, Hnth, Hshort. fold ws in Hlen, Hnth, Hshort.
  assert (Hn : (1 <= nsamps)%Z).
  { unfold nsamps, Py.len. destruct samps; [easy|cbn [length]; lia]. }
  assert (Hw1 : (1 <= w <= nsamps)%Z) by lia.
  split; [exact Hmax|]. split; [exact Hlen|].
  split; [intros i Hlt; apply Hnth; lia|].
  split; [|split; [|split; [|exact Hshort]]].
  - replace (Z.to_nat (w * (nsamps / w)))
      with (Z.to_nat (nsamps / w) * Z.to_nat w)%nat by nia.
    rewrite <- concat_chunks. f_equal.
    apply nth_ext with (d := []) (d' := []).
    + now rewrite length_map, length_seq.
    + intros i Hlt. rewrite Hlen in Hlt.
      rewrite (proj1 (Hnth i Hlt)).
      rewrite (nth_indep _ []
                 ((fun i => firstn (Z.to_nat w)
                              (skipn (i * Z.to_nat w) samps)) 0%nat))
        by now rewrite length_map, length_seq.
      now rewrite (map_nth (fun i => firstn (Z.to_nat w)
                                       (skipn (i * Z.to_nat w) samps))),
        seq_nth.
  - rewrite length_skipn. unfold nsamps, Py.len in *.
    assert (w * (Z.of_nat (length samps) / w) <= Z.of_nat (length samps))%Z
      by (apply Z.mul_div_le; lia).
    rewrite Z.mod_eq by lia. lia.
  - apply Z.mod_pos_bound. lia.
Qed.

Lemma windows_partition_a_prefix_witness :
  concat (windows (ramp 7) 3 (7 / 3)) = firstn 6 (ramp 7).
Proof.
  apply (windows_partition_a_prefix (ramp 7) 10 0.3); [discriminate|].
  vm_compute. discriminate.
Defined.

(** X16.  At a positive sample rate [detect_segment_bpm] returns [None]
    without analysing anything when the end time is not after the start
    time, when the start lies at or past the end of the audio
    ([start_time * fs >= len(audio_data)]), or when the end lies a whole
    sample or more past it ([end_time * fs >= len(audio_data) + 1]). *)
Theorem out_of_range_segment_is_rejected
        (audio_data : list Q) (fs : Z)
        (start_time end_time window_size : Q) :
  (0 < fs)%Z ->
  end_time <= start_time
  \/ inject_Z (Py.len audio_data) <= start_time * inject_Z fs
  \/ inject_Z (Py.len audio_data) + 1 <= end_time * inject_Z fs ->
  detect_segment_bpm audio_data fs start_time end_time window_size = Ret None.
Proof. exact (segment_rejected audio_data fs start_time end_time window_size). Qed.

Lemma out_of_range_segment_is_rejected_witness :
  detect_segment_bpm (ramp 120) 30 3 2 3 = Ret None.
Proof.
  apply (out_of_range_segment_is_rejected (ramp 120) 30 3 2 3);
    [reflexivity|].
  left. discriminate.
Defined.

(** X17.  A window of digital silence, of any length for which the level
    loop completes, has no estimate at any sample rate: [bpm_detector]
    returns [(None, None)], never a number. *)
Theorem silence_has_no_estimate (n : nat) (fs : Z) :
  (0 < n)%nat ->
  (((n + 7) / 2) mod 8 <> 0 \/ (n + 7) / 2 = 8)%nat ->
  bpm_detector (silence n) fs = no_audio_data.
Proof. exact (silent_window_fails n fs). Qed.

Lemma silence_has_no_estimate_witness :
  bpm_detector (silence 1000) 44100 = no_audio_data.
Proof.
  apply (silence_has_no_estimate 1000 44100); [lia|].
  left. vm_compute. lia.
Defined.

(** X18.  A segment whose start sample is negative passes the range test
    whenever the start lies before the end and the end is not past the
    audio: the segment is then cut with Python's negative indexing, which
    counts a negative bound from the end of the audio, and analysed. *)
Theorem negative_start_is_cut_from_the_end
        (audio_data : list Q) (fs : Z)
        (start_time end_time window_size : Q) :
  let b := segment_bounds fs start_time end_time in
  (fst b < 0)%Z -> (fst b < snd b)%Z -> (snd b <= Py.len audio_data)%Z ->
  detect_segment_bpm audio_data fs start_time end_time window_size
  = analyze_windows (Py.slice audio_data (fst b) (snd b)) fs window_size.
Proof.
  exact (negative_start_passes_range_test audio_data fs start_time end_time
                                          window_size).
Qed.

Lemma negative_start_is_cut_from_the_end_witness :
  detect_segment_bpm (ramp 120) 30 (-1) 1 3
  = analyze_windows (Py.slice (ramp 120) (-30) 30) 30 3.
Proof.
  apply (negative_start_is_cut_from_the_end (ramp 120) 30 (-1) 1 3);
    vm_compute; try reflexivity; discriminate.
Defined.

(** X19.  When the window duration is shorter than one sample period
    ([int(window_size * fs) = 0]), the division
    [nsamps / window_samps] raises ZeroDivisionError for every sample
    sequence, empty or not. *)
Theorem window_below_one_sample_raises
        (samps : list Q) (fs : Z) (window_size : Q) :
  Py.int (window_size * inject_Z fs) = 0%Z ->
  detect_file_bpm (Some (samps, fs)) window_size = Raise ZeroDivisionError.
Proof. exact (short_window_raises samps fs window_size). Qed.

Lemma window_below_one_sample_raises_witness :
  detect_file_bpm (Some (ramp 60, 30%Z)) 0.01 = Raise ZeroDivisionError.
Proof.
  apply (window_below_one_sample_raises (ramp 60) 30 0.01). reflexivity.
Defined.

(** ** Active segments *)

Lemma ltb_lt (x y : Q) : Activity.ltb x y = true <-> x < y.
Proof.
  unfold Activity.ltb. rewrite negb_true_iff. split.
  - intros H. apply Qnot_le_lt. intros C.
    apply Qle_bool_iff in C. congruence.
  - intros H. destruct (Qle_bool y x) eqn:E; [|reflexivity].
    apply Qle_bool_iff in E. exfalso. eapply Qlt_not_le; eassumption.
Qed.

Lemma ltb_ge (x y : Q) : Activity.ltb x y = false <-> y <= x.
Proof.
  unfold Activity.ltb. rewrite negb_false_iff. apply Qle_bool_iff.
Qed.

Lemma activity_insert_length (x : Activity.interval)
      (l : list Activity.interval) :
  length (Activity.insert x l) = S (length l).
Proof.
  induction l as [|y l IH]; cbn [Activity.insert]; [reflexivity|].
  destruct (Activity.tuple_lt y x); cbn [length]; [now rewrite IH|reflexivity].
Qed.

Lemma activity_sorted_length (l : list Activity.interval) :
  length (Activity.sorted l) = length l.
Proof.
  induction l as [|x l IH]; cbn [Activity.sorted fold_right]; [reflexivity|].
  fold (Activity.sorted l). now rewrite activity_insert_length, IH.
Qed.

Lemma active_loop_inv (l : list Activity.interval) (c : Q)
      (acc : list Activity.interval) :
  Forall (fun iv => fst iv < snd iv) acc ->
  Forall (fun iv => fst iv < snd iv) (snd (Activity.active_loop c l acc))
  /\ (length (snd (Activity.active_loop c l acc))
      <= length acc + length l)%nat.
Proof.
  revert c acc. induction l as [|[s e] l IH]; intros c acc Hacc;
    cbn [Activity.active_loop snd length].
  - split; [exact Hacc|lia].
  - destruct (Activity.ltb c s) eqn:E.
    + destruct (IH e (acc ++ [(c, s)])) as [H1 H2].
      { apply Forall_app. split; [exact Hacc|].
        constructor; [|constructor]. now apply ltb_lt. }
      split; [exact H1|]. rewrite length_app in H2. cbn [length] in H2. lia.
    + destruct (IH e acc Hacc) as [H1 H2]. split; [exact H1|lia].
Qed.

(** X10.  [get_active_segments] returns at most one interval more than
    there are silence intervals, and, when there is at least one silence
    interval, every interval it returns has a start strictly before its
    end: no empty or reversed active segment is produced, however the
    silence intervals are ordered or overlap. *)
Theorem active_segments_are_proper
        (audio_duration : Q) (silence : list Activity.interval) :
  (length (Activity.get_active_segments audio_duration silence)
   <= length silence + 1)%nat
  /\ (silence <> [] ->
      Forall (fun iv => fst iv < snd iv)
             (Activity.get_active_segments audio_duration silence)).
Proof.
  unfold Activity.get_active_segments.
  destruct silence as [|iv silence]; [split; [cbn; lia|easy]|].
  set (l := Activity.sorted (iv :: silence)).
  assert (Hl : length l = length (iv :: silence))
    by apply activity_sorted_length.
  destruct (active_loop_inv l 0 [] (Forall_nil _)) as [H1 H2].
  destruct (Activity.active_loop 0 l []) as [c acc]. cbn [snd] in H1, H2.
  rewrite Hl in H2. cbn [length] in H2 |- *.
  destruct (Activity.ltb c audio_duration) eqn:E.
  - split.
    + rewrite length_app. cbn [length]. lia.
    + intros _. apply Forall_app. split; [exact H1|].
      constructor; [|constructor]. now apply ltb_lt.
  - split; [lia|intros _; exact H1].
Qed.

Lemma active_segments_are_proper_witness :
  Forall (fun iv => fst iv < snd iv)
         (Activity.get_active_segments 10 [(5, 7); (2, 3)]).
Proof.
  apply (proj2 (active_segments_are_proper 10 [(5, 7); (2, 3)])).
  discriminate.
Defined.

Lemma total_from (l : list Activity.interval) (a : Q) :
  fold_left (fun acc iv => acc + (snd iv - fst iv)) l a
  == a + Activity.total_duration l.
Proof.
  unfold Activity.total_duration. revert a.
  induction l as [|iv l IH]; intros a; cbn [fold_left]; [ring|].
  rewrite (IH (a + _)), (IH (0 + _)). ring.
Qed.

Lemma total_cons (iv : Activity.interval) (l : list Activity.interval) :
  Activity.total_duration (iv :: l)
  == (snd iv - fst iv) + Activity.total_duration l.
Proof.
  unfold Activity.total_duration at 1. cbn [fold_left].
  rewrite total_from. ring.
Qed.

Lemma total_snoc (l : list Activity.interval) (iv : Activity.interval) :
  Activity.total_duration (l ++ [iv])
  == Activity.total_duration l + (snd iv - fst iv).
Proof.
  induction l as [|x l IH]; cbn [app].
  - rewrite total_cons. unfold Activity.total_duration. cbn. ring.
  - rewrite !total_cons, IH. ring.
Qed.

Lemma chain_bounds (l : list Activity.interval) (c d : Q) :
  Activity.chain c l d ->
  c <= d /\ 0 <= Activity.total_duration l
  /\ Activity.total_duration l <= d - c.
Proof.
  revert c. induction l as [|[s e] l IH]; intros c H; cbn [Activity.chain] in H.
  - unfold Activity.total_duration. cbn. repeat split; lra.
  - destruct H as (H1 & H2 & H3). destruct (IH e H3) as (A & B & C).
    rewrite total_cons. cbn [fst snd]. repeat split; lra.
Qed.

Lemma sorted_chain (l : list Activity.interval) (c d : Q) :
  Activity.chain c l d -> Activity.sorted l = l.
Proof.
  revert c. induction l as [|[s e] l IH]; intros c H;
    cbn [Activity.sorted fold_right]; [reflexivity|].
  fold (Activity.sorted l). cbn [Activity.chain] in H.
  destruct H as (H1 & H2 & H3). rewrite (IH e H3).
  destruct l as [|[s' e'] l]; cbn [Activity.insert]; [reflexivity|].
  cbn [Activity.chain] in H3. destruct H3 as (H4 & H5 & _).
  unfold Activity.tuple_lt. cbn [fst snd].
  destruct (Qeq_bool s' s) eqn:E.
  - apply Qeq_bool_iff in E.
    assert (Hf : Activity.ltb e' e = false) by (apply ltb_ge; lra).
    now rewrite Hf.
  - assert (Hf : Activity.ltb s' s = false) by (apply ltb_ge; lra).
    now rewrite Hf.
Qed.

Lemma active_loop_chain (l : list Activity.interval) (c d : Q)
      (acc : list Activity.interval) :
  Activity.chain c l d ->
  c <= fst (Activity.active_loop c l acc)
  /\ fst (Activity.active_loop c l acc) <= d
  /\ Activity.total_duration (snd (Activity.active_loop c l acc))
     + Activity.total_duration l
     == Activity.total_duration acc
        + (fst (Activity.active_loop c l acc) - c).
Proof.
  revert c acc. induction l as [|[s e] l IH]; intros c acc H;
    cbn [Activity.chain] in H; cbn [Activity.active_loop fst snd].
  - unfold Activity.total_duration at 2. cbn [fold_left].
    repeat split; lra.
  - destruct H as (H1 & H2 & H3).
    set (acc1 := if Activity.ltb c s then acc ++ [(c, s)] else acc).
    assert (Hacc1 : Activity.total_duration acc1
                    == Activity.total_duration acc + (s - c)).
    { unfold acc1. destruct (Activity.ltb c s) eqn:E.
      - now rewrite total_snoc.
      - apply ltb_ge in E. lra. }
    destruct (IH e acc1 H3) as (A & B & C).
    pose proof (chain_bounds _ _ _ H3) as (D & _).
    rewrite total_cons. cbn [fst snd]. repeat split; lra.
Qed.

Lemma summarize_consistent
        (audio_duration : Q) (silence : list Activity.interval) :
  Activity.chain 0 silence audio_duration ->
  let info := Activity.summarize audio_duration silence in
  Activity.total_active_duration info + Activity.total_silence_duration info
  == audio_duration
  /\ 0 <= Activity.active_percentage info
  /\ Activity.active_percentage info <= 100.
Proof.
  intros Hchain info.
  pose proof (chain_bounds _ _ _ Hchain) as (Hd & Hs0 & Hs1).
  assert (Hsum : Activity.total_duration
                   (Activity.get_active_segments audio_duration silence)
                 + Activity.total_duration silence == audio_duration).
  { unfold Activity.get_active_segments.
    destruct silence as [|iv silence].
    - unfold Activity.total_duration. cbn. ring.
    - rewrite (sorted_chain _ _ _ Hchain).
      destruct (active_loop_chain (iv :: silence) 0 audio_duration []
                                  Hchain) as (A & B & C).
      destruct (Activity.active_loop 0 (iv :: silence) []) as [c acc].
      cbn [fst snd] in A, B, C.
      unfold Activity.total_duration at 3 in C. cbn [fold_left] in C.
      destruct (Activity.ltb c audio_duration) eqn:E.
      + rewrite total_snoc. cbn [fst snd]. lra.
      + apply ltb_ge in E. lra. }
  unfold info, Activity.summarize.
  cbn [Activity.total_active_duration Activity.total_silence_duration
       Activity.active_percentage].
  split; [exact Hsum|].
  set (ta := Activity.total_duration
               (Activity.get_active_segments audio_duration silence)) in *.
  set (ts := Activity.total_duration silence) in *.
  destruct (Activity.ltb 0 audio_duration) eqn:E; [|split; lra].
  apply ltb_lt in E.
  assert (Hta : 0 <= ta /\ ta <= audio_duration) by (split; lra).
  split.
  - apply Qmult_le_0_compat; [|lra].
    apply Qle_shift_div_l; [exact E|]. lra.
  - assert (H1 : ta / audio_duration <= 1).
    { apply Qle_shift_div_r; [exact E|]. lra. }
    lra.
Qed.

(** X11.  When the silence intervals follow each other without overlap
    between 0 and the duration
    ([0 <= s1 <= e1 <= s2 <= ... <= en <= duration]), the summary of
    [analyze_audio_file] is consistent: the active and the silent
    durations add up to the duration of the audio, and the active
    percentage lies between 0 and 100. *)
Theorem summary_of_ordered_silence
        (audio_duration : Q) (silence : list Activity.interval) :
  Activity.chain 0 silence audio_duration ->
  let info := Activity.summarize audio_duration silence in
  Activity.total_active_duration info + Activity.total_silence_duration info
  == audio_duration
  /\ 0 <= Activity.active_percentage info
  /\ Activity.active_percentage info <= 100.
Proof. exact (summarize_consistent audio_duration silence). Qed.

Lemma summary_of_ordered_silence_witness :
  let info := Activity.summarize 10 [(2, 3); (5, 7)] in
  Activity.total_active_duration info + Activity.total_silence_duration info
  == 10
  /\ 0 <= Activity.active_percentage info
  /\ Activity.active_percentage info <= 100.
Proof.
  apply (summary_of_ordered_silence 10 [(2, 3); (5, 7)]).
  cbn. repeat split; discriminate.
Defined.

(** ** Silence detection *)

Lemma where_lt_from_spec (row : list Q) (v : Q) (k i : nat) :
  In i (Activity.where_lt_from k row v)
  <-> (k <= i)%nat /\ (i - k < length row)%nat
      /\ Activity.ltb (nth (i - k) row 0) v = true.
Proof.
  revert k. induction row as [|x row IH]; intros k;
    cbn [Activity.where_lt_from].
  - split; [intros []|]. cbn [length]. lia.
  - assert (Hstep : In i (Activity.where_lt_from (S k) row v)
                    <-> (k < i)%nat /\ (i - k < length (x :: row))%nat
                        /\ Activity.ltb (nth (i - k) (x :: row) 0) v = true).
    { rewrite IH. cbn [length]. split.
      - intros (A & B & C). replace (i - k)%nat with (S (i - S k)) by lia.
        cbn [nth]. repeat split; try lia. exact C.
      - intros (A & B & C). replace (i - k)%nat with (S (i - S k)) in C by lia.
        cbn [nth] in C. repeat split; try lia. exact C. }
    destruct (Activity.ltb x v) eqn:E.
    + cbn [In]. rewrite Hstep. split.
      * intros [<-|(A & B & C)].
        -- rewrite Nat.sub_diag. cbn [nth length]. repeat split; try lia.
           exact E.
        -- repeat split; try lia; assumption.
      * intros (A & B & C).
        destruct (Nat.eq_dec k i) as [->|N]; [now left|right].
        repeat split; try lia; assumption.
    + rewrite Hstep. split.
      * intros (A & B & C). repeat split; try lia; assumption.
      * intros (A & B & C).
        destruct (Nat.eq_dec k i) as [->|N].
        -- rewrite Nat.sub_diag in C. cbn [nth] in C. congruence.
        -- repeat split; try lia; assumption.
Qed.

Lemma existsb_where_lt (row : list Q) (v : Q) (i : nat) :
  (i < length row)%nat ->
  existsb (Nat.eqb i) (Activity.where_lt_from 0 row v)
  = Activity.ltb (nth i row 0) v.
Proof.
  intros Hi.
  destruct (Activity.ltb (nth i row 0) v) eqn:E.
  - apply existsb_exists. exists i. split; [|apply Nat.eqb_refl].
    apply where_lt_from_spec. rewrite Nat.sub_0_r. repeat split; try lia.
    exact E.
  - destruct (existsb _ _) eqn:X; [|reflexivity].
    apply existsb_exists in X. destruct X as (j & Hj & Hij).
    apply Nat.eqb_eq in Hij. subst j.
    apply where_lt_from_spec in Hj. rewrite Nat.sub_0_r in Hj.
    destruct Hj as (_ & _ & C). congruence.
Qed.

Lemma map_seq_nth {A B : Type} (f : A -> B) (l : list A) (d : A) :
  map (fun i => f (nth i l d)) (seq 0 (length l)) = map f l.
Proof.
  induction l as [|x l IH]; cbn [length seq map]; [reflexivity|].
  f_equal. rewrite <- seq_shift, map_map. exact IH.
Qed.

(** [silence_tags] holds 1 at the frames below the threshold, 0 elsewhere. *)
Lemma silence_tags_flags (S_db : list Q) (v : Q) :
  Activity.set_ones (length S_db) (Activity.where_lt_from 0 S_db v)
  = map Activity.flag_value (Activity.flags S_db v).
Proof.
  unfold Activity.set_ones, Activity.flags. rewrite map_map.
  rewrite <- (map_seq_nth (fun x => Activity.flag_value (Activity.ltb x v))
                          S_db 0).
  apply map_ext_in. intros i Hi. apply in_seq in Hi.
  rewrite existsb_where_lt by lia. reflexivity.
Qed.

(** The rising and the falling edges of the padded tags pair up into the
    maximal runs of flags. *)
Lemma edges_runs (fl : list bool) (p : bool) (i a : nat) :
  combine
    ((if p then [a] else [])
     ++ Np.where_eq_from i
          (Activity.diff (Activity.flag_value p
                          :: map Activity.flag_value fl ++ [0])) 1)
    (Np.where_eq_from i
       (Activity.diff (Activity.flag_value p
                       :: map Activity.flag_value fl ++ [0])) (-1))
  = Activity.runs (if p then Some a else None) i fl.
Proof.
  revert p i a. induction fl as [|b fl IH]; intros p i a.
  - destruct p; reflexivity.
  - cbn [map app Activity.diff Np.where_eq_from Activity.runs].
    destruct p, b; cbn [Activity.flag_value].
    + change (Qeq_bool (1 - 1) 1) with false.
      change (Qeq_bool (1 - 1) (-1)) with false.
      apply (IH true (S i) a).
    + change (Qeq_bool (0 - 1) 1) with false.
      change (Qeq_bool (0 - 1) (-1)) with true.
      cbn [app combine]. f_equal. apply (IH false (S i) a).
    + change (Qeq_bool (1 - 0) 1) with true.
      change (Qeq_bool (1 - 0) (-1)) with false.
      apply (IH true (S i) i).
    + change (Qeq_bool (0 - 0) 1) with false.
      change (Qeq_bool (0 - 0) (-1)) with false.
      apply (IH false (S i) a).
Qed.

Lemma runs_no_flags (fl : list bool) (i : nat) :
  forallb negb fl = true -> Activity.runs None i fl = [].
Proof.
  revert i. induction fl as [|b fl IH]; intros i H; cbn [Activity.runs];
    [reflexivity|].
  cbn [forallb] in H. apply andb_true_iff in H. destruct H as [Hb Hfl].
  destruct b; [discriminate Hb|]. now apply IH.
Qed.

Lemma where_lt_nil_flags (row : list Q) (v : Q) (k : nat) :
  Activity.where_lt_from k row v = [] ->
  forallb negb (Activity.flags row v) = true.
Proof.
  revert k. induction row as [|x row IH]; intros k H;
    cbn [Activity.where_lt_from Activity.flags map forallb] in *;
    [reflexivity|].
  destruct (Activity.ltb x v); [discriminate H|]. cbn [negb andb].
  now apply (IH (S k)).
Qed.

(** [detect_silence] runs its loop over the maximal runs of silent
    frames. *)
Lemma detect_silence_runs (S_db : list Q) (sr : Z) (thr min : Q) :
  Activity.detect_silence S_db sr thr min
  = Activity.silence_loop
      (map (fun frame =>
              Activity.frames_to_time frame sr
                                      (Py.int (inject_Z sr * 0.010)))
           (seq 0 (length S_db)))
      min (Activity.runs None 0 (Activity.flags S_db thr)) [].
Proof.
  unfold Activity.detect_silence.
  destruct (Activity.where_lt_from 0 S_db thr) as [|f fs] eqn:W.
  - cbn [length Nat.ltb Nat.leb].
    rewrite runs_no_flags; [reflexivity|].
    eapply where_lt_nil_flags. exact W.
  - cbn [length Nat.ltb Nat.leb]. rewrite <- W.
    rewrite length_map, length_seq, silence_tags_flags.
    unfold Np.where_eq.
    cbn [app]. change 0 with (Activity.flag_value false) at 1 3.
    f_equal. apply (edges_runs (Activity.flags S_db thr) false 0 0).
Qed.









Lemma runs_separated (fl : list bool) (open : option nat) (i : nat) :
  (forall a, open = Some a -> (a < i)%nat) ->
  Activity.separated (match open with Some a => a | None => i end)
                     (Activity.runs open i fl)
  /\ forall x y, In (x, y) (Activity.runs open i fl) ->
                 (y <= i + length fl)%nat.
Proof.
  revert open i. induction fl as [|b fl IH]; intros open i Hopen;
    cbn [Activity.runs length].
  - destruct open as [a|]; cbn [Activity.separated].
    + specialize (Hopen a eq_refl). split; [repeat split; lia|].
      intros x y [E|[]]. injection E as <- <-. lia.
    + split; [exact I|intros x y []].
  - destruct b.
    + destruct (IH (match open with Some a => Some a | None => Some i end)
                   (S i)) as [H1 H2].
      { intros a Ha. destruct open as [a'|].
        - injection Ha as <-. specialize (Hopen a' eq_refl). lia.
        - injection Ha as <-. lia. }
      split.
      * destruct open as [a|]; exact H1.
      * intros x y Hin. specialize (H2 x y Hin). lia.
    + destruct (IH None (S i)) as [H1 H2]; [discriminate|].
      cbn [Activity.separated] in H1.
      assert (Hsep : forall lo, (lo <= S i)%nat ->
                Activity.separated lo (Activity.runs None (S i) fl)).
      { intros lo Hlo. destruct (Activity.runs None (S i) fl) as [|[x y] t];
          [exact I|].
        cbn [Activity.separated] in *. destruct H1 as (A & B).
        split; [lia|exact B]. }
      destruct open as [a|].
      * specialize (Hopen a eq_refl). cbn [Activity.separated]. split.
        -- split; [lia|exact H1].
        -- intros x y [E|Hin]; [injection E as <- <-; lia|].
           specialize (H2 x y Hin). lia.
      * split; [apply Hsep; lia|].
        intros x y Hin. specialize (H2 x y Hin). lia.
Qed.

Lemma hop_length_nonneg (sr : Z) :
  (0 < sr)%Z -> (0 <= Py.int (inject_Z sr * 0.010))%Z.
Proof.
  intros H. apply int_nonneg. apply Qmult_le_0_compat; [|discriminate].
  change 0 with (inject_Z 0). rewrite <- Zle_Qle. lia.
Qed.

Lemma frame_time_mono (sr : Z) (k k' : nat) :
  (0 < sr)%Z -> (k <= k')%nat ->
  Activity.frame_time sr k <= Activity.frame_time sr k'.
Proof.
  intros Hsr Hk. unfold Activity.frame_time, Activity.frames_to_time.
  pose proof (hop_length_nonneg sr Hsr) as Hhop.
  set (hop := Py.int (inject_Z sr * 0.010)) in *.
  unfold Qdiv. apply Qmult_le_compat_r.
  - rewrite <- Zle_Qle. nia.
  - apply Qinv_le_0_compat. change 0 with (inject_Z 0).
    rewrite <- Zle_Qle. lia.
Qed.

Lemma frame_time_0 (sr : Z) : Activity.frame_time sr 0 == 0.
Proof.
  unfold Activity.frame_time, Activity.frames_to_time.
  cbn [Z.of_nat Z.mul]. unfold Qdiv. now rewrite Qmult_0_l.
Qed.

Lemma frame_times_nth (sr : Z) (n k : nat) :
  (k < n)%nat ->
  nth k (map (Activity.frame_time sr) (seq 0 n)) 0 = Activity.frame_time sr k.
Proof.
  intros Hk.
  rewrite (nth_indep _ 0 (Activity.frame_time sr 0))
    by now rewrite length_map, length_seq.
  now rewrite map_nth, seq_nth.
Qed.

Lemma index_frame (sr : Z) (n x : nat) :
  (1 <= x <= n)%nat ->
  Activity.index (map (Activity.frame_time sr) (seq 0 n)) (Z.of_nat x - 1)
  = Activity.frame_time sr (x - 1).
Proof.
  intros Hx. unfold Activity.index.
  destruct (Z.of_nat x - 1 <? 0)%Z eqn:E; [lia|].
  replace (Z.to_nat (Z.of_nat x - 1)) with (x - 1)%nat by lia.
  apply frame_times_nth. lia.
Qed.

Lemma index_wraps (sr : Z) (n : nat) :
  (1 <= n)%nat ->
  Activity.index (map (Activity.frame_time sr) (seq 0 n)) (Z.of_nat 0 - 1)
  = Activity.frame_time sr (n - 1).
Proof.
  intros Hn. unfold Activity.index, Py.len.
  rewrite length_map, length_seq.
  change (Z.of_nat 0 - 1)%Z with (-1)%Z. change (-1 <? 0)%Z with true.
  cbv iota. replace (Z.to_nat (-1 + Z.of_nat n)) with (n - 1)%nat by lia.
  apply frame_times_nth. lia.
Qed.

Lemma silence_loop_flat (ft : list Q) (min : Q) (rs : list (nat * nat))
      (acc : list Activity.interval) :
  Activity.silence_loop ft min rs acc
  = acc ++ flat_map
             (fun r =>
                let t_start := Activity.index ft (Z.of_nat (fst r) - 1) in
                let t_end := Activity.index ft (Z.of_nat (snd r) - 1) in
                if Qle_bool min (t_end - t_start)
                then [(t_start, t_end)] else [])
             rs.
Proof.
  revert acc. induction rs as [|[x y] rs IH]; intros acc;
    cbn [Activity.silence_loop flat_map fst snd].
  - now rewrite app_nil_r.
  - rewrite IH. destruct (Qle_bool min _); [|reflexivity].
    now rewrite <- app_assoc.
Qed.

Lemma flags_length (S_db : list Q) (thr : Q) :
  length (Activity.flags S_db thr) = length S_db.
Proof. apply length_map. Qed.

Lemma detect_silence_flat (S_db : list Q) (sr : Z) (thr min : Q) :
  Activity.detect_silence S_db sr thr min
  = flat_map
      (fun r =>
         let ft := map (Activity.frame_time sr) (seq 0 (length S_db)) in
         let t_start := Activity.index ft (Z.of_nat (fst r) - 1) in
         let t_end := Activity.index ft (Z.of_nat (snd r) - 1) in
         if Qle_bool min (t_end - t_start) then [(t_start, t_end)] else [])
      (Activity.runs None 0 (Activity.flags S_db thr)).
Proof. now rewrite detect_silence_runs, silence_loop_flat. Qed.

(** A kept pair of edges cannot start at frame 0: its start time would be
    the time of the last frame. *)
Lemma kept_run_starts_late (S_db : list Q) (sr : Z) (min : Q) (x y : nat) :
  (0 < sr)%Z -> 0 < min -> (x < y <= length S_db)%nat ->
  let ft := map (Activity.frame_time sr) (seq 0 (length S_db)) in
  Qle_bool min (Activity.index ft (Z.of_nat y - 1)
                - Activity.index ft (Z.of_nat x - 1)) = true ->
  (1 <= x)%nat.
Proof.
  intros Hsr Hmin Hxy ft Hkeep. apply Qle_bool_iff in Hkeep.
  destruct x as [|x]; [exfalso|lia].
  unfold ft in Hkeep.
  rewrite index_wraps, index_frame in Hkeep by lia.
  pose proof (frame_time_mono sr (y - 1) (length S_db - 1) Hsr ltac:(lia)).
  lra.
Qed.



Lemma chain_weaken (l : list Activity.interval) (from from' upto : Q) :
  from' <= from -> Activity.chain from l upto -> from' <= upto ->
  Activity.chain from' l upto.
Proof.
  destruct l as [|[s e] l]; cbn [Activity.chain].
  - intros _ _ H. exact H.
  - intros H (A & B & C) _. repeat split; try assumption.
    eapply Qle_trans; eassumption.
Qed.

Lemma kept_runs_chain (S_db : list Q) (sr : Z) (min : Q)
      (rs : list (nat * nat)) (lo : nat) (from upto : Q) :
  (0 < sr)%Z -> 0 < min ->
  Activity.separated lo rs ->
  (forall x y, In (x, y) rs -> (y <= length S_db)%nat) ->
  from <= Activity.frame_time sr (lo - 1) ->
  from <= upto ->
  (length S_db = 0%nat
   \/ Activity.frame_time sr (length S_db - 1) <= upto) ->
  Activity.chain
    from
    (flat_map
       (fun r =>
          let ft := map (Activity.frame_time sr) (seq 0 (length S_db)) in
          let t_start := Activity.index ft (Z.of_nat (fst r) - 1) in
          let t_end := Activity.index ft (Z.of_nat (snd r) - 1) in
          if Qle_bool min (t_end - t_start) then [(t_start, t_end)] else [])
       rs)
    upto.
Proof.
  intros Hsr Hmin. revert lo from.
  induction rs as [|[x y] rs IH]; intros lo from Hsep Hy Hfrom Hupto Hlast;
    cbn [flat_map Activity.chain]; [exact Hupto|].
  cbn [Activity.separated] in Hsep. destruct Hsep as (Hxy & Hsep).
  assert (Hyn : (y <= length S_db)%nat) by (apply (Hy x y); now left).
  assert (Hrest : forall x' y', In (x', y') rs -> (y' <= length S_db)%nat)
    by (intros x' y' H; apply (Hy x' y'); now right).
  cbn [fst snd].
  destruct (Qle_bool min _) eqn:K.
  - pose proof (kept_run_starts_late S_db sr min x y Hsr Hmin
                                     ltac:(lia) K) as Hx.
    rewrite !index_frame by lia. cbn [app Activity.chain].
    assert (Hlasty : Activity.frame_time sr (y - 1) <= upto).
    { destruct Hlast as [E|Hlast]; [lia|].
      eapply Qle_trans; [|exact Hlast]. apply frame_time_mono; [exact Hsr|lia]. }
    split; [|split].
    + eapply Qle_trans; [exact Hfrom|]. apply frame_time_mono; [exact Hsr|lia].
    + apply frame_time_mono; [exact Hsr|lia].
    + apply (IH (S y)); try assumption.
      apply frame_time_mono; [exact Hsr|lia].
  - cbn [app]. apply (IH (S y)); try assumption.
    eapply Qle_trans; [exact Hfrom|]. apply frame_time_mono; [exact Hsr|lia].
Qed.

Lemma detect_silence_chain (S_db : list Q) (sr : Z) (thr min upto : Q) :
  (0 < sr)%Z -> 0 < min -> 0 <= upto ->
  (length S_db = 0%nat
   \/ Activity.frame_time sr (length S_db - 1) <= upto) ->
  Activity.chain 0 (Activity.detect_silence S_db sr thr min) upto.
Proof.
  intros Hsr Hmin Hupto Hlast. rewrite detect_silence_flat.
  destruct (runs_separated (Activity.flags S_db thr) None 0) as [Hsep Hy];
    [discriminate|].
  apply (kept_runs_chain S_db sr min _ 0); try assumption.
  - intros x y Hin. specialize (Hy x y Hin).
    rewrite flags_length in Hy. lia.
  - rewrite frame_time_0. apply Qle_refl.
Qed.

(** X13.  The intervals that [detect_silence] reports follow each other
    in time without overlap, from 0 up to the time of the last frame.
    Hence, whenever the last frame time does not exceed the duration of
    the audio, the summary of [analyze_audio_file] is consistent for every
    input: active and silent durations add up to the duration, and the
    active percentage lies between 0 and 100. *)
Theorem analysis_of_detected_silence_is_consistent
        (n_samples : Z) (S_db : list Q) (sr : Z)
        (threshold_db min_silence_duration : Q) :
  (0 < sr)%Z -> 0 < min_silence_duration -> (0 <= n_samples)%Z ->
  (length S_db = 0%nat
   \/ Activity.frame_time sr (length S_db - 1)
      <= inject_Z n_samples / inject_Z sr) ->
  let info :=
    Activity.analyze_audio n_samples S_db sr threshold_db
                           min_silence_duration in
  Activity.chain 0 (Activity.silence_intervals info) (Activity.duration info)
  /\ Activity.total_active_duration info
     + Activity.total_silence_duration info
     == Activity.duration info
  /\ 0 <= Activity.active_percentage info
  /\ Activity.active_percentage info <= 100.
Proof.
  intros Hsr Hmin Hn Hlast info.
  assert (Hd : 0 <= inject_Z n_samples / inject_Z sr).
  { apply Qle_shift_div_l.
    - change 0 with (inject_Z 0). now rewrite <- Zlt_Qlt.
    - rewrite Qmult_0_l. change 0 with (inject_Z 0). now rewrite <- Zle_Qle. }
  pose proof (detect_silence_chain S_db sr threshold_db min_silence_duration
                                   _ Hsr Hmin Hd Hlast) as Hchain.
  split; [exact Hchain|].
  exact (summarize_consistent _ _ Hchain).
Qed.

Lemma analysis_of_detected_silence_is_consistent_witness :
  let info :=
    Activity.analyze_audio 80 [-50; -50; -50; 0; -50; -50; 0; -50]
                           1000 (-40) 0.015 in
  Activity.total_active_duration info + Activity.total_silence_duration info
  == Activity.duration info
  /\ 0 <= Activity.active_percentage info
  /\ Activity.active_percentage info <= 100.
Proof.
  apply (analysis_of_detected_silence_is_consistent
           80 [-50; -50; -50; 0; -50; -50; 0; -50] 1000 (-40) 0.015).
  - reflexivity.
  - reflexivity.
  - discriminate.
  - right. vm_compute. discriminate.
Defined.

(** ** Download links *)

Lemma dict_get_set_same (d : Links.dict) (k : string) (v : Links.entry) :
  Links.dict_get (Links.dict_set d k v) k = Some v.
Proof.
  induction d as [|[k' v'] d IH]; cbn [Links.dict_set Links.dict_get].
  - now rewrite String.eqb_refl.
  - destruct (String.eqb k' k) eqn:E; cbn [Links.dict_get]; now rewrite E.
Qed.

Lemma dict_get_set_other (d : Links.dict) (k k2 : string) (v : Links.entry) :
  k <> k2 ->
  Links.dict_get (Links.dict_set d k v) k2 = Links.dict_get d k2.
Proof.
  intros Hne. induction d as [|[k' v'] d IH];
    cbn [Links.dict_set Links.dict_get].
  - destruct (String.eqb k k2) eqn:E; [|reflexivity].
    apply String.eqb_eq in E. contradiction.
  - destruct (String.eqb k' k) eqn:E; cbn [Links.dict_get].
    + apply String.eqb_eq in E. subst k'.
      destruct (String.eqb k k2) eqn:E2; [|reflexivity].
      apply String.eqb_eq in E2. contradiction.
    + destruct (String.eqb k' k2); [reflexivity|exact IH].
Qed.

Lemma found_links_snoc (links : list Links.link) (l : Links.link) :
  Links.found_links (links ++ [l])
  = match Links.track_of l with
    | Some track_name =>
        Links.dict_set (Links.found_links links) track_name (Links.entry_of l)
    | None => Links.found_links links
    end.
Proof. unfold Links.found_links. now rewrite fold_left_app. Qed.

(** X20.  The entry stored for a track comes from a single anchor, the
    last one filed under that track: an earlier anchor of the same track
    leaves nothing behind.  So a track is stored with both a full
    multitrack link and an excerpt link only if the text of that one
    anchor contains both phrases; with one anchor per download, the one
    listed first is lost. *)
Theorem stored_links_come_from_the_last_anchor
        (links : list Links.link) (track_name : string) (e : Links.entry) :
  Links.dict_get (Links.found_links links) track_name = Some e ->
  exists before l after,
    links = before ++ l :: after
    /\ Links.track_of l = Some track_name
    /\ (forall l', In l' after -> Links.track_of l' <> Some track_name)
    /\ e = Links.entry_of l
    /\ (Links.full e <> None -> Links.excerpt e <> None ->
        Links.contains "Full Multitrack" (Links.text l) = true
        /\ Links.contains "Edited Excerpt" (Links.text l) = true).
Proof.
  induction links as [|l links IH] using rev_ind; intros H.
  - discriminate H.
  - rewrite found_links_snoc in H.
    assert (Hboth : forall l0,
      Links.full (Links.entry_of l0) <> None ->
      Links.excerpt (Links.entry_of l0) <> None ->
      Links.contains "Full Multitrack" (Links.text l0) = true
      /\ Links.contains "Edited Excerpt" (Links.text l0) = true).
    { intros l0. unfold Links.entry_of. cbn [Links.full Links.excerpt].
      destruct (Links.contains "Full Multitrack" (Links.text l0));
        destruct (Links.contains "Edited Excerpt" (Links.text l0));
        intros A B; try contradiction; auto. }
    destruct (Links.track_of l) as [k|] eqn:T.
    + destruct (String.eqb k track_name) eqn:E.
      * apply String.eqb_eq in E. subst k.
        rewrite dict_get_set_same in H. injection H as <-.
        exists links, l, []. repeat split; try assumption; try reflexivity.
        -- intros l' [].
        -- apply Hboth; assumption.
        -- apply Hboth; assumption.
      * apply String.eqb_neq in E.
        rewrite dict_get_set_other in H by exact E.
        destruct (IH H) as (before & l0 & after & -> & Ht & Hafter & He & Hb).
        exists before, l0, (after ++ [l]).
        rewrite <- app_assoc. cbn [app].
        repeat split; try assumption.
        -- intros l' Hin. apply in_app_iff in Hin.
           destruct Hin as [Hin|[<-|[]]]; [now apply Hafter|].
           rewrite T. intros C. injection C as C. contradiction.
        -- apply Hb; assumption.
        -- apply Hb; assumption.
    + destruct (IH H) as (before & l0 & after & -> & Ht & Hafter & He & Hb).
      exists before, l0, (after ++ [l]).
      rewrite <- app_assoc. cbn [app].
      repeat split; try assumption.
      * intros l' Hin. apply in_app_iff in Hin.
        destruct Hin as [Hin|[<-|[]]]; [now apply Hafter|].
        rewrite T. discriminate.
      * apply Hb; assumption.
      * apply Hb; assumption.
Qed.

Lemma stored_links_come_from_the_last_anchor_witness :
  exists e,
    Links.dict_get
      (Links.found_links
         [ {| Links.text := "Full Multitrack (zip)";
              Links.href := "a_full.zip";
              Links.previous_strong := Some "Song"%string |};
           {| Links.text := "Edited Excerpt (zip)";
              Links.href := "a_excerpt.zip";
              Links.previous_strong := Some "Song"%string |} ]%string)
      "Song" = Some e
    /\ Links.full e = None
    /\ Links.excerpt e = Some "a_excerpt.zip"%string.
Proof.
  eexists.
  match goal with
  | |- ?E /\ _ => assert (H : E) by (vm_compute; reflexivity)
  end.
  split; [exact H|].
  destruct (stored_links_come_from_the_last_anchor _ _ _ H)
    as (before & l & after & Hl & Ht & Hafter & He & _).
  split; reflexivity.
Defined.
